(** * Pool: a per-worker experience-replay buffer (src/pool.py)

    A shallow embedding of class [Pool] and the properties of its append,
    eviction, index selection and aggregation code.

    Conventions of the embedding.
    - A numpy array is the list of its rows along axis 0; [V] is the type of a
      row.  [np.expand_dims(a,axis=0)] is the one-row array [[a]],
      [np.concatenate((x,y),0)] is [x ++ y].
    - A [manager.list()] is a list updated in place.  Reading [l[i]] is
      [l !! i]; reading or writing past the end raises [IndexError].  Worker
      indices are natural numbers (Python's negative indices are not used by
      any caller in the file).
    - A segment entry is [None] (never written) or [Some rows].
    - The methods mutate shared lists and can raise in the middle of a
      sequence of assignments: a computation maps a state to a result and
      the state reached, also when the result is an exception.
    - Python integers are [Z]; the weights of [inverse_len] are exact
      rationals [Q] (the source computes them as floats); [math.ceil] of the
      true division of two integers is the exact ceiling. *)

From Stdlib Require Import ZArith QArith Lia.
From stdpp Require Import base tactics option list.

Local Open Scope Z_scope.

(** ** Exceptions and the state-and-exception monad *)

Inductive exn : Set :=
  | IndexError
  | AttributeError
  | TypeError
  | ValueError
  | ZeroDivisionError.

Inductive result (A : Type) : Type :=
  | Ok (a : A)
  | Raise (e : exn).
Arguments Ok {A} a.
Arguments Raise {A} e.

Definition M (S A : Type) : Type := S -> result A * S.

Definition ret {S A} (a : A) : M S A := fun st => (Ok a, st).

Definition raise {S A} (e : exn) : M S A := fun st => (Raise e, st).

Definition bind {S A B} (m : M S A) (k : A -> M S B) : M S B :=
  fun st =>
    match m st with
    | (Ok a, st') => k a st'
    | (Raise e, st') => (Raise e, st')
    end.

Declare Scope pool_scope.
Delimit Scope pool_scope with pool.
Notation "x <- m ;; k" := (bind m (fun x => k))
  (at level 100, m at level 99, k at level 200, right associativity) : pool_scope.
Notation "m ;; k" := (bind m (fun _ => k))
  (at level 100, k at level 200, right associativity) : pool_scope.
Local Open Scope pool_scope.

(** ** Python and numpy primitives *)

Section Primitives.
Context {V : Type}.

(** An array held in a slot of a manager list, or the [None] sentinel. *)
Definition slot : Type := option (list V).

(** [np.expand_dims(a,axis=0)]. *)
Definition np_expand_dims (a : V) : list V := [a].

(** [np.concatenate((x,y),0)]: [None] is a zero-dimensional object and
    cannot be concatenated. *)
Definition np_concatenate2 {S} (x : slot) (y : list V) : M S (list V) :=
  match x with
  | Some rows => ret (rows ++ y)
  | None => raise ValueError
  end.

(** The start of the slice [x[w:]] of a sequence of length [n]: a negative
    bound counts from the end, and both are clipped to the sequence. *)
Definition slice_start (w : option Z) (n : nat) : nat :=
  match w with
  | None => 0%nat
  | Some k =>
      if k <? 0 then Z.to_nat (Z.max (Z.of_nat n + k) 0)
      else Z.to_nat (Z.min k (Z.of_nat n))
  end.

(** [x[w:]]; [None] is not subscriptable. *)
Definition py_slice_from {S} (w : option Z) (x : slot) : M S (list V) :=
  match x with
  | Some rows => ret (drop (slice_start w (length rows)) rows)
  | None => raise TypeError
  end.

(** [len(x)]. *)
Definition py_len {S} (x : slot) : M S Z :=
  match x with
  | Some rows => ret (Z.of_nat (length rows))
  | None => raise TypeError
  end.

(** [l[i]] on a plain sequence. *)
Definition list_getitem {S A} (l : list A) (i : nat) : M S A :=
  match l !! i with
  | Some x => ret x
  | None => raise IndexError
  end.

(** [c % m] on integers; Python's remainder has the sign of the divisor,
    as [Z.modulo] has. *)
Definition py_mod {S} (c m : Z) : M S Z :=
  if m =? 0 then raise ZeroDivisionError else ret (c mod m).

(** The exact ceiling of [a / b] for [b <> 0]. *)
Definition ceil_div (a b : Z) : Z := - ((- a) / b).

(** [math.ceil(a / b)]. *)
Definition math_ceil_div {S} (a b : Z) : M S Z :=
  if b =? 0 then raise ZeroDivisionError else ret (ceil_div a b).

(** [np.concatenate(l)] over a list of slots: the arrays are joined from
    left to right; an empty list and a [None] entry are rejected. *)
Fixpoint join_slots (acc : list V) (l : list slot) : result (list V) :=
  match l with
  | [] => Ok acc
  | Some rows :: l' => join_slots (acc ++ rows) l'
  | None :: _ => Raise ValueError
  end.

Definition np_concatenate {S} (l : list slot) : M S (list V) :=
  match l with
  | [] => raise ValueError
  | _ :: _ => fun st => (join_slots [] l, st)
  end.
End Primitives.
Arguments slot V : clear implicits.

(** ** The Pool object *)

(** The constructor's arguments that the methods read ([env] is part of the
    driver's surroundings, below). *)
Record Config : Set := mkConfig {
  processes : nat;
  pool_size : Z;
  window_size : option Z;
  clearing_freq : option Z;
  window_size_ : option Z;
  random : bool
}.

(** The shared lists.  [store_counter] is [None] when the attribute was
    never created. *)
Record PoolState (V : Type) : Type := mkPool {
  state_pool_list : list (slot V);
  action_pool_list : list (slot V);
  next_state_pool_list : list (slot V);
  reward_pool_list : list (slot V);
  done_pool_list : list (slot V);
  inverse_len : list Q;
  store_counter : option (list Z)
}.
Arguments mkPool {V}.
Arguments state_pool_list {V}.
Arguments action_pool_list {V}.
Arguments next_state_pool_list {V}.
Arguments reward_pool_list {V}.
Arguments done_pool_list {V}.
Arguments inverse_len {V}.
Arguments store_counter {V}.

(** The five per-field lists, by name. *)
Inductive field : Set := F_state | F_action | F_next_state | F_reward | F_done.

#[global] Instance field_eq_dec : EqDecision field.
Proof. solve_decision. Defined.

Definition fields : list field :=
  [F_state; F_action; F_next_state; F_reward; F_done].

Section PoolObject.
Context {V : Type}.
Local Abbreviation St := (PoolState V).

Definition get_list (f : field) (st : St) : list (slot V) :=
  match f with
  | F_state => state_pool_list st
  | F_action => action_pool_list st
  | F_next_state => next_state_pool_list st
  | F_reward => reward_pool_list st
  | F_done => done_pool_list st
  end.

Definition set_list (f : field) (l : list (slot V)) (st : St) : St :=
  match f with
  | F_state =>
      mkPool l (action_pool_list st) (next_state_pool_list st)
        (reward_pool_list st) (done_pool_list st) (inverse_len st) (store_counter st)
  | F_action =>
      mkPool (state_pool_list st) l (next_state_pool_list st)
        (reward_pool_list st) (done_pool_list st) (inverse_len st) (store_counter st)
  | F_next_state =>
      mkPool (state_pool_list st) (action_pool_list st) l
        (reward_pool_list st) (done_pool_list st) (inverse_len st) (store_counter st)
  | F_reward =>
      mkPool (state_pool_list st) (action_pool_list st) (next_state_pool_list st)
        l (done_pool_list st) (inverse_len st) (store_counter st)
  | F_done =>
      mkPool (state_pool_list st) (action_pool_list st) (next_state_pool_list st)
        (reward_pool_list st) l (inverse_len st) (store_counter st)
  end.

Definition set_inverse_len (l : list Q) (st : St) : St :=
  mkPool (state_pool_list st) (action_pool_list st) (next_state_pool_list st)
    (reward_pool_list st) (done_pool_list st) l (store_counter st).

Definition set_store_counter (c : option (list Z)) (st : St) : St :=
  mkPool (state_pool_list st) (action_pool_list st) (next_state_pool_list st)
    (reward_pool_list st) (done_pool_list st) (inverse_len st) c.

(** [self.<f>_pool_list[i]]. *)
Definition getitem (f : field) (i : nat) : M St (slot V) :=
  fun st =>
    match get_list f st !! i with
    | Some x => (Ok x, st)
    | None => (Raise IndexError, st)
    end.

(** [self.<f>_pool_list[i] = x]. *)
Definition setitem (f : field) (i : nat) (x : slot V) : M St unit :=
  fun st =>
    if decide (i < length (get_list f st))%nat
    then (Ok tt, set_list f (<[i := x]> (get_list f st)) st)
    else (Raise IndexError, st).

(** [self.store_counter[i]]. *)
Definition counter_getitem (i : nat) : M St Z :=
  fun st =>
    match store_counter st with
    | None => (Raise AttributeError, st)
    | Some c =>
        match c !! i with
        | Some n => (Ok n, st)
        | None => (Raise IndexError, st)
        end
    end.

(** [self.store_counter[i] = n]. *)
Definition counter_setitem (i : nat) (n : Z) : M St unit :=
  fun st =>
    match store_counter st with
    | None => (Raise AttributeError, st)
    | Some c =>
        if decide (i < length c)%nat
        then (Ok tt, set_store_counter (Some (<[i := n]> c)) st)
        else (Raise IndexError, st)
    end.

(** [self.inverse_len[i] = q]. *)
Definition inverse_setitem (i : nat) (q : Q) : M St unit :=
  fun st =>
    if decide (i < length (inverse_len st))%nat
    then (Ok tt, set_inverse_len (<[i := q]> (inverse_len st)) st)
    else (Raise IndexError, st).

(** [self.done_pool]: no method of the class assigns this attribute. *)
Definition done_pool : M St (list (slot V)) := raise AttributeError.

(** *** [__init__] (lines 7-24) *)
Definition init (cfg : Config) : St :=
  {| state_pool_list := [];
     action_pool_list := [];
     next_state_pool_list := [];
     reward_pool_list := [];
     done_pool_list := [];
     inverse_len := replicate (processes cfg) 0%Q;
     store_counter :=
       match clearing_freq cfg with
       | Some _ => Some []
       | None => None
       end |}.

(** *** [pool] (lines 26-59), in its three consecutive parts *)

(** [self.<f>_pool_list[index] = self.<f>_pool_list[index][w:]]. *)
Definition truncate (w : option Z) (index : nat) (f : field) : M St unit :=
  x <- getitem f index ;;
  rows <- py_slice_from w x ;;
  setitem f index (Some rows).

(** The same assignment for the five lists, in the order of the source. *)
Definition truncate_all (w : option Z) (index : nat) : M St unit :=
  truncate w index F_state ;;
  truncate w index F_action ;;
  truncate w index F_next_state ;;
  truncate w index F_reward ;;
  truncate w index F_done.

(** [self.<f>_pool_list[index] =
     np.concatenate((self.<f>_pool_list[index], y), 0)]. *)
Definition extend (index : nat) (f : field) (y : list V) : M St unit :=
  x <- getitem f index ;;
  rows <- np_concatenate2 x y ;;
  setitem f index (Some rows).

(** Lines 27-38.  [s] arrives with its leading axis already added by the
    caller and is stored as it is; the other four values get theirs here.
    Line 38 reads [self.done_pool[7]]. *)
Definition pool_append (s : list V) (a next_s r done : V) (index : nat)
  : M St unit :=
  cur <- getitem F_state index ;;
  match cur with
  | None =>
      setitem F_state index (Some s) ;;
      setitem F_action index (Some (np_expand_dims a)) ;;
      setitem F_next_state index (Some (np_expand_dims next_s)) ;;
      setitem F_reward index (Some (np_expand_dims r)) ;;
      setitem F_done index (Some (np_expand_dims done))
  | Some _ =>
      extend index F_state s ;;
      extend index F_action (np_expand_dims a) ;;
      extend index F_next_state (np_expand_dims next_s) ;;
      extend index F_reward (np_expand_dims r) ;;
      (l <- done_pool ;;
       x <- list_getitem l 7 ;;
       rows <- np_concatenate2 x (np_expand_dims done) ;;
       setitem F_done index (Some rows))
  end.

(** Lines 39-46. *)
Definition pool_clearing (cfg : Config) (index : nat) : M St unit :=
  match clearing_freq cfg with
  | Some freq =>
      c <- counter_getitem index ;;
      counter_setitem index (c + 1) ;;
      c' <- counter_getitem index ;;
      m <- py_mod c' freq ;;
      if m =? 0 then truncate_all (window_size_ cfg) index else ret tt
  | None => ret tt
  end.

(** Lines 47-59. *)
Definition pool_capacity (cfg : Config) (index : nat) : M St unit :=
  x <- getitem F_state index ;;
  n <- py_len x ;;
  cap <- math_ceil_div (pool_size cfg) (Z.of_nat (processes cfg)) ;;
  if n >? cap then
    match window_size cfg with
    | Some w => truncate_all (Some w) index
    | None => truncate_all (Some 1) index
    end
  else ret tt.

Definition pool (cfg : Config) (s : list V) (a next_s r done : V)
    (index : nat) : M St unit :=
  pool_append s a next_s r done index ;;
  pool_clearing cfg index ;;
  pool_capacity cfg index.

(** *** [get_pool] (lines 98-104) *)
Definition get_pool
  : M St (list V * list V * list V * list V * list V) :=
  state_pool <- (fun st => np_concatenate (state_pool_list st) st) ;;
  action_pool <- (fun st => np_concatenate (action_pool_list st) st) ;;
  next_state_pool <- (fun st => np_concatenate (next_state_pool_list st) st) ;;
  reward_pool <- (fun st => np_concatenate (reward_pool_list st) st) ;;
  done_pool <- (fun st => np_concatenate (done_pool_list st) st) ;;
  ret (state_pool, action_pool, next_state_pool, reward_pool, done_pool).
End PoolObject.

(** ** The worker's loop *)

(** What a worker does to the locks, in order. *)
Inductive event : Set :=
  | Acquire (index : nat)
  | Release (index : nat).

Definition event_index (e : event) : nat :=
  match e with
  | Acquire index => index
  | Release index => index
  end.

(** The shared lists, the surroundings of the Pool (environments, policy,
    random generator) and the lock operations performed so far. *)
Record World (V E : Type) : Type := mkWorld {
  shared : PoolState V;
  outside : E;
  trace : list event
}.
Arguments mkWorld {V E}.
Arguments shared {V E}.
Arguments outside {V E}.
Arguments trace {V E}.

(** How a run of the loop ends: [return], an exception, or still running
    when the given number of iterations is used up. *)
Inductive outcome : Set :=
  | Returned
  | Raised (e : exn)
  | OutOfFuel.

Section Driver.
Context {V E : Type}.

(** The collaborators of the class, which the source does not define:
    [self.env[p].reset()], [self.env[p].step(a)], [self.select_action(s)],
    the truth value of a stored [done] row (the test [if done:]),
    and the draw [np.random.choice(self.processes,p=prob.numpy())] of
    line 72, taken together with the conversion [prob.numpy()] of its
    argument.  Each may change its own state and may raise (a numpy array
    has no attribute [numpy]: there the draw raises [AttributeError]). *)
Variable env_reset : nat -> M E (V * V).
Variable env_step : nat -> V -> M E (V * V * V * V).
Variable truth : V -> bool.
Variable select_action : list V -> M E V.
Variable random_choice : nat -> list Q -> M E nat.

Definition in_pool {A} (m : M (PoolState V) A) : M (World V E) A :=
  fun w =>
    let (res, st) := m (shared w) in
    (res, mkWorld st (outside w) (trace w)).

Definition in_env {A} (m : M E A) : M (World V E) A :=
  fun w =>
    let (res, e) := m (outside w) in
    (res, mkWorld (shared w) e (trace w)).

Definition emit (ev : event) : M (World V E) unit :=
  fun w => (Ok tt, mkWorld (shared w) (outside w) (trace w ++ [ev])).

(** [np.sum(self.inverse_len)]. *)
Definition np_sum (l : list Q) : Q := fold_left Qplus l 0%Q.

(** [self.inverse_len/total_inverse], as exact quotients: the entries of
    the source are the floats nearest to these, and a zero total gives zeros
    here where numpy gives nan or inf.  The vector is only handed to the
    draw. *)
Definition normalize (l : list Q) (total : Q) : list Q :=
  map (fun x => (x / total)%Q) l.

(** [1/(n+1)]. *)
Definition inverse_weight (n : Z) : Q := (1 / inject_Z (n + 1))%Q.

(** Lines 65-75: the index of the segment that receives the next sample. *)
Definition select_index (cfg : Config) (p : nat) : M (World V E) nat :=
  if random cfg then
    cur <- in_pool (getitem F_state p) ;;
    match cur with
    | None =>
        in_pool (inverse_setitem p 1%Q) ;;
        ret p
    | Some _ =>
        weights <- in_pool (fun st => (Ok (inverse_len st), st)) ;;
        let total_inverse := np_sum weights in
        let prob := normalize weights total_inverse in
        index <- in_env (random_choice (processes cfg) prob) ;;
        x <- in_pool (getitem F_state index) ;;
        n <- py_len x ;;
        in_pool (inverse_setitem index (inverse_weight n)) ;;
        ret index
    end
  else ret p.

(** Lines 76-84: step the environment and store the sample under the lock
    of the chosen segment.  An exception of [pool] leaves the lock held. *)
Definition store_sample (cfg : Config) (p : nat) (s : V) (index : nat)
  : M (World V E) (V * bool) :=
  let s := np_expand_dims s in
  a <- in_env (select_action s) ;;
  step <- in_env (env_step p a) ;;
  let '(a, next_s, r, done) := step in
  emit (Acquire index) ;;
  in_pool (pool cfg s a next_s r done index) ;;
  emit (Release index) ;;
  ret (next_s, truth done).

(** One turn of the [while True] loop. *)
Definition iteration (cfg : Config) (p : nat) (s : V)
  : M (World V E) (V * bool) :=
  index <- select_index cfg p ;;
  store_sample cfg p s index.

(** Lines 64-87, for at most [fuel] turns. *)
Fixpoint driver_loop (cfg : Config) (fuel : nat) (p : nat) (s : V)
    (w : World V E) : outcome * World V E :=
  match fuel with
  | O => (OutOfFuel, w)
  | S fuel' =>
      match iteration cfg p s w with
      | (Ok (next_s, done), w') =>
          if (done : bool) then (Returned, w')
          else driver_loop cfg fuel' p next_s w'
      | (Raise e, w') => (Raised e, w')
      end
  end.

(** [store_in_parallel] (lines 61-87). *)
Definition store_in_parallel (cfg : Config) (fuel : nat) (p : nat)
    (w : World V E) : outcome * World V E :=
  match in_env (env_reset p) w with
  | (Ok (s, _), w') => driver_loop cfg fuel p s w'
  | (Raise e, w') => (Raised e, w')
  end.
End Driver.

(** * Vocabulary of the statements *)

(** [m] relates every start state to the state it ends in, whatever its
    result. *)
Definition preserves {S A : Type} (R : S -> S -> Prop) (m : M S A) : Prop :=
  forall st, R st (m st).2.

(** The store counter of segment [j], when there is one. *)
Definition counter_at {V} (st : PoolState V) (j : nat) : option Z :=
  match store_counter st with
  | Some c => c !! j
  | None => None
  end.

(** Nothing but the entries at [index] differs between [st] and [st']. *)
Definition frame {V} (index : nat) (st st' : PoolState V) : Prop :=
  (forall f j, j <> index -> get_list f st' !! j = get_list f st !! j) /\
  (forall j, j <> index -> counter_at st' j = counter_at st j) /\
  (forall f, length (get_list f st') = length (get_list f st)) /\
  inverse_len st' = inverse_len st.

(** [new] is [old] without some of its first rows; [None] stays [None]. *)
Definition slot_suffix {V} (old new : slot V) : Prop :=
  match old, new with
  | Some l, Some l' => exists k, (k <= length l)%nat /\ l' = drop k l
  | None, None => True
  | _, _ => False
  end.

(** Every list keeps its length and every entry is a suffix of what it
    was; the counters may change, the weights do not. *)
Definition evicts {V} (st st' : PoolState V) : Prop :=
  (forall f, length (get_list f st') = length (get_list f st)) /\
  (forall f j old, get_list f st !! j = Some old ->
     exists new, get_list f st' !! j = Some new /\ slot_suffix old new) /\
  inverse_len st' = inverse_len st.

(** The state after [self.<f>_pool_list[i] = x]. *)
Definition update_slot {V} (f : field) (i : nat) (x : slot V)
    (st : PoolState V) : PoolState V :=
  set_list f (<[i := x]> (get_list f st)) st.

(** All five field sequences of segment [index] are written, [rows f]
    being the one of field [f]. *)
Definition written {V} (st : PoolState V) (index : nat)
    (rows : field -> list V) : Prop :=
  forall f, get_list f st !! index = Some (Some (rows f)).

(** The rows that the slice [rows[w:]] keeps. *)
Definition cut {V} (w : option Z) (rows : list V) : list V :=
  drop (slice_start w (length rows)) rows.

(** The rows of one sample, per field, as [pool] stores them. *)
Definition sample_rows {V} (s : list V) (a next_s r done : V) (f : field)
  : list V :=
  match f with
  | F_state => s
  | F_action => np_expand_dims a
  | F_next_state => np_expand_dims next_s
  | F_reward => np_expand_dims r
  | F_done => np_expand_dims done
  end.

(** The number of entries dropped on overflow: [window_size], or 1. *)
Definition window (cfg : Config) : Z := default 1 (window_size cfg).

(** The per-segment capacity [ceil(pool_size / processes)]. *)
Definition capacity (cfg : Config) : Z :=
  ceil_div (pool_size cfg) (Z.of_nat (processes cfg)).

(** The length of a segment, as line 47 measures it; 0 while it is unset. *)
Definition seg_len {V} (st : PoolState V) (index : nat) : Z :=
  match state_pool_list st !! index with
  | Some (Some rows) => Z.of_nat (length rows)
  | _ => 0
  end.

(** The five field sequences of segment [index] are written and have the
    same length. *)
Definition aligned {V} (st : PoolState V) (index : nat) : Prop :=
  exists n, forall f, exists rows,
    get_list f st !! index = Some (Some rows) /\ length rows = n.

(** The lengths of the five field sequences of a segment. *)
Definition field_lengths {V} (st : PoolState V) (index : nat) : list (option nat) :=
  (fun f => match get_list f st !! index with
            | Some (Some rows) => Some (length rows)
            | _ => None
            end) <$> fields.

(** The number of rows that the segments before segment [i] hold. *)
Definition offset {V} (segs : list (list V)) (i : nat) : nat :=
  sum_list (length <$> take i segs).

(** The sequence that [get_pool] returns for field [f]. *)
Definition pool_field {V} (f : field)
    (out : list V * list V * list V * list V * list V) : list V :=
  let '(state_pool, action_pool, next_state_pool, reward_pool, done_pool) := out in
  match f with
  | F_state => state_pool
  | F_action => action_pool
  | F_next_state => next_state_pool
  | F_reward => reward_pool
  | F_done => done_pool
  end.

(** From [w] to [w'] every lock operation added to the trace is on lock
    [p], and nothing of the shared lists but segment [p] and counter [p]
    has changed. *)
Definition stays_on {V E} (p : nat) (w w' : World V E) : Prop :=
  (exists evs, trace w' = trace w ++ evs /\
               Forall (fun ev => event_index ev = p) evs) /\
  frame p (shared w) (shared w').

(** The world after [self.inverse_len[j] = q], with the surroundings in
    state [e]. *)
Definition with_weight {V E} (j : nat) (q : Q) (e : E) (w : World V E)
  : World V E :=
  mkWorld (set_inverse_len (<[j := q]> (inverse_len (shared w))) (shared w))
    e (trace w).

(** The shared weights are the same in [w] and [w']. *)
Definition same_weights {V E} (w w' : World V E) : Prop :=
  inverse_len (shared w') = inverse_len (shared w).

(** A list that [np.concatenate] accepts: not empty, and no entry unset. *)
Definition all_written {V} (l : list (slot V)) : Prop :=
  l <> [] /\ Forall is_Some l.

(** The two lock operations around one stored sample. *)
Definition holds (index : nat) : list event := [Acquire index; Release index].

(** The trace is the same in [w] and [w']. *)
Definition same_trace {V E} (w w' : World V E) : Prop :=
  trace w' = trace w.

(** The row of field [f] in a sample [(s, a, next_s, r, done)]. *)
Definition sample_field {V} (f : field) (smp : V * V * V * V * V) : V :=
  let '(s, a, next_s, r, done) := smp in
  match f with
  | F_state => s
  | F_action => a
  | F_next_state => next_s
  | F_reward => r
  | F_done => done
  end.

(** One [pool] call per sample, for the segments [index], [index + 1], ...
    in turn, each [s] with its leading axis added as the worker's loop adds
    it: the first turns of the workers in deterministic mode, one after the
    other. *)
Fixpoint pool_each {V} (cfg : Config) (samples : list (V * V * V * V * V))
    (index : nat) : M (PoolState V) unit :=
  match samples with
  | [] => ret tt
  | (s, a, next_s, r, done) :: rest =>
      pool cfg (np_expand_dims s) a next_s r done index ;;
      pool_each cfg rest (S index)
  end.

(** * Inputs of the concrete runs *)

(** The pool that the lifecycle of the spec describes after construction,
    and that the [is None] test of [pool] is written for: one unset entry
    per worker, weights 0, and counters 0 when clearing is configured. *)
Definition unset_pool (cfg : Config) : PoolState Z :=
  let n := processes cfg in
  {| state_pool_list := replicate n None;
     action_pool_list := replicate n None;
     next_state_pool_list := replicate n None;
     reward_pool_list := replicate n None;
     done_pool_list := replicate n None;
     inverse_len := replicate n 0%Q;
     store_counter :=
       match clearing_freq cfg with
       | Some _ => Some (replicate n 0)
       | None => None
       end |}.

(** [processes=2, pool_size=4], no window, no clearing, deterministic. *)
Definition cfg_plain : Config := mkConfig 2 4 None None None false.

(** [processes=1, pool_size=4, clearing_freq=2, window_size_=1]. *)
Definition cfg_clearing : Config := mkConfig 1 4 None (Some 2) (Some 1) false.

(** [processes=2, pool_size=4], probabilistic. *)
Definition cfg_random : Config := mkConfig 2 4 None None None true.

(** Segment 0 after one sample. *)
Definition one_sample (cfg : Config) : PoolState Z :=
  (pool cfg [10] 20 30 1 0 0%nat (unset_pool cfg)).2.

(** Segment 0 with three samples and one counted append. *)
Definition three_rows : PoolState Z :=
  {| state_pool_list := [Some [10; 11; 12]];
     action_pool_list := [Some [20; 21; 22]];
     next_state_pool_list := [Some [30; 31; 32]];
     reward_pool_list := [Some [1; 1; 1]];
     done_pool_list := [Some [0; 0; 0]];
     inverse_len := [0%Q];
     store_counter := Some [1] |}.

(** Two written segments, per field. *)
Definition two_segments (f : field) : list (list Z) :=
  match f with
  | F_state => [[10; 11]; [12]]
  | F_action => [[20; 21]; [22]]
  | F_next_state => [[30; 31]; [32]]
  | F_reward => [[1; 1]; [1]]
  | F_done => [[0; 0]; [1]]
  end.

Definition two_written : PoolState Z :=
  {| state_pool_list := Some <$> two_segments F_state;
     action_pool_list := Some <$> two_segments F_action;
     next_state_pool_list := Some <$> two_segments F_next_state;
     reward_pool_list := Some <$> two_segments F_reward;
     done_pool_list := Some <$> two_segments F_done;
     inverse_len := [0%Q; 0%Q];
     store_counter := None |}.

(** The field sequences of segment 0 in [three_rows]. *)
Definition rows_three (f : field) : list Z :=
  match f with
  | F_state => [10; 11; 12]
  | F_action => [20; 21; 22]
  | F_next_state => [30; 31; 32]
  | F_reward => [1; 1; 1]
  | F_done => [0; 0; 0]
  end.

(** [processes=1, pool_size=4, clearing_freq=2], [window_size_] not given. *)
Definition cfg_counting : Config := mkConfig 1 4 None (Some 2) None false.

(** [processes=1, pool_size=4, clearing_freq=0]. *)
Definition cfg_zero : Config := mkConfig 1 4 None (Some 0) None false.

(** [processes=1, pool_size=2, window_size=-1]. *)
Definition cfg_negative : Config := mkConfig 1 2 (Some (-1)) None None false.

(** One sample for each of two segments. *)
Definition two_samples : list (Z * Z * Z * Z * Z) :=
  [(10, 20, 30, 1, 0); (11, 21, 31, 1, 1)].

(** [processes=1, pool_size=2], no window: capacity 2, one entry dropped
    on overflow. *)
Definition cfg_tight : Config := mkConfig 1 2 None None None false.

(** [n] further [pool] calls on segment 0, each with the sample
    [([11], 21, 31, 1, 0)], whatever their results. *)
Definition pool_again (cfg : Config) (n : nat) (st : PoolState Z) : PoolState Z :=
  Nat.iter n (fun st => (pool cfg [11] 21 31 1 0 0%nat st).2) st.

(** The draw of line 72 as the source has it: [prob] is the numpy array of
    line 71, which has no attribute [numpy], so evaluating the argument
    [p=prob.numpy()] raises [AttributeError] before [np.random.choice] is
    called. *)
Definition source_draw {E} (n : nat) (prob : list Q) : M E nat :=
  raise AttributeError.

(** Collaborators for the runs below: an environment whose episode ends at
    the first step, a constant policy, and a draw that returns index 0. *)
Definition env_reset0 (p : nat) : M unit (Z * Z) := ret (5, 0).
Definition env_step0 (p : nat) (a : Z) : M unit (Z * Z * Z * Z) := ret (a, 1, 1, 1).
Definition truth0 (v : Z) : bool := negb (v =? 0).
Definition select_action0 (s : list Z) : M unit Z := ret 0.
Definition random_choice0 (n : nat) (prob : list Q) : M unit nat := ret 0%nat.

Definition world0 (st : PoolState Z) : World Z unit := mkWorld st tt [].

(** Two segments in probabilistic mode after worker 0's first turn:
    segment 0 holds one sample and has weight 1, segment 1 is unset. *)
Definition bootstrapped : PoolState Z :=
  {| state_pool_list := [Some [5]; None];
     action_pool_list := [Some [0]; None];
     next_state_pool_list := [Some [1]; None];
     reward_pool_list := [Some [1]; None];
     done_pool_list := [Some [1]; None];
     inverse_len := [1%Q; 0%Q];
     store_counter := None |}.

(** What the selection is meant to achieve for a worker whose own segment
    is written: some index [j] is selected, and once the sample has been
    appended the weight of [j] is [1/(new_len+1)], [new_len] being the
    length of segment [j] after the append. *)
Definition weight_follows_append
    (random_choice : nat -> list Q -> M unit nat)
    (cfg : Config) (p : nat) (s : Z) (w : World Z unit) : Prop :=
  exists j w1,
    select_index random_choice cfg p w = (Ok j, w1) /\
    let w2 := (store_sample env_step0 truth0 select_action0 cfg p s j w1).2 in
    exists q, inverse_len (shared w2) !! j = Some q /\
              (q == inverse_weight (seg_len (shared w2) j))%Q.

(** * Properties *)

(** ** Relations between the state before and after a computation *)

Section Preservation.
Context {S : Type} (R : S -> S -> Prop).
Hypothesis R_refl : forall st, R st st.
Hypothesis R_trans : forall st1 st2 st3, R st1 st2 -> R st2 st3 -> R st1 st3.

Lemma preserves_ret {A} (a : A) : preserves R (ret a).
Proof. intros st. apply R_refl. Qed.

Lemma preserves_raise {A} (e : exn) : preserves R (raise (A := A) e).
Proof. intros st. apply R_refl. Qed.

Lemma preserves_bind {A B} (m : M S A) (k : A -> M S B) :
  preserves R m -> (forall a, preserves R (k a)) -> preserves R (bind m k).
Proof.
  intros Hm Hk st. unfold bind.
  specialize (Hm st). destruct (m st) as [[a|e] st1]; simpl in *.
  - eapply R_trans; [exact Hm | apply Hk].
  - exact Hm.
Qed.

End Preservation.

Section Frame.
Context {V : Type}.
Implicit Types st : PoolState V.

Lemma frame_refl index st : frame index st st.
Proof. repeat split; auto. Qed.

Lemma frame_trans index st1 st2 st3 :
  frame index st1 st2 -> frame index st2 st3 -> frame index st1 st3.
Proof.
  intros (A1 & B1 & C1 & D1) (A2 & B2 & C2 & D2). repeat split.
  - intros f j Hj. rewrite A2, A1; auto.
  - intros j Hj. rewrite B2, B1; auto.
  - intros f. rewrite C2, C1; auto.
  - congruence.
Qed.

Lemma get_set_list f g l st :
  get_list f (set_list g l st) = if decide (f = g) then l else get_list f st.
Proof. destruct f, g; reflexivity. Qed.

Lemma frame_getitem index f i : preserves (frame index) (getitem (V := V) f i).
Proof.
  intros st. unfold getitem. destruct (get_list f st !! i); apply frame_refl.
Qed.

Lemma frame_setitem index f x :
  preserves (frame index) (setitem (V := V) f index x).
Proof.
  intros st. unfold setitem. case_decide; simpl; [|apply frame_refl].
  repeat split.
  - intros g j Hj. rewrite get_set_list. case_decide; subst; auto.
    apply list_lookup_insert_ne. auto.
  - intros j Hj. destruct f; reflexivity.
  - intros g. rewrite get_set_list. case_decide; subst; auto.
    apply length_insert.
  - destruct f; reflexivity.
Qed.

Lemma frame_counter_getitem index i :
  preserves (frame index) (counter_getitem (V := V) i).
Proof.
  intros st. unfold counter_getitem.
  destruct (store_counter st) as [c|]; [destruct (c !! i)|]; apply frame_refl.
Qed.

Lemma frame_counter_setitem index n :
  preserves (frame index) (counter_setitem (V := V) index n).
Proof.
  intros st. unfold counter_setitem.
  destruct (store_counter st) as [c|] eqn:Hc; [|apply frame_refl].
  case_decide; simpl; [|apply frame_refl].
  repeat split; auto.
  intros j Hj. unfold counter_at. simpl. rewrite Hc.
  apply list_lookup_insert_ne. auto.
Qed.
End Frame.

Section PureSteps.
Context {V S : Type} (R : S -> S -> Prop).
Hypothesis R_refl : forall st, R st st.

Lemma preserves_np_concatenate2 (x : slot V) y :
  preserves R (np_concatenate2 (S := S) x y).
Proof. destruct x; [apply preserves_ret | apply preserves_raise]; auto. Qed.

Lemma preserves_py_slice_from w (x : slot V) :
  preserves R (py_slice_from (S := S) w x).
Proof. destruct x; [apply preserves_ret | apply preserves_raise]; auto. Qed.

Lemma preserves_py_len (x : slot V) : preserves R (py_len (S := S) x).
Proof. destruct x; [apply preserves_ret | apply preserves_raise]; auto. Qed.

Lemma preserves_list_getitem {A} (l : list A) i :
  preserves R (list_getitem (S := S) l i).
Proof.
  unfold list_getitem.
  destruct (l !! i); [apply preserves_ret | apply preserves_raise]; auto.
Qed.

Lemma preserves_py_mod c m : preserves R (py_mod (S := S) c m).
Proof.
  unfold py_mod.
  destruct (m =? 0); [apply preserves_raise | apply preserves_ret]; auto.
Qed.

Lemma preserves_math_ceil_div a b : preserves R (math_ceil_div (S := S) a b).
Proof.
  unfold math_ceil_div.
  destruct (b =? 0); [apply preserves_raise | apply preserves_ret]; auto.
Qed.
End PureSteps.

(** Splits a sequence of steps into its steps; [prim] closes a single step. *)
Ltac preserves_steps refl trans prim :=
  repeat first
    [ apply (preserves_ret _ refl)
    | apply (preserves_raise _ refl)
    | apply (preserves_np_concatenate2 _ refl)
    | apply (preserves_py_slice_from _ refl)
    | apply (preserves_py_len _ refl)
    | apply (preserves_list_getitem _ refl)
    | apply (preserves_py_mod _ refl)
    | apply (preserves_math_ceil_div _ refl)
    | progress prim
    | apply (preserves_bind _ trans); [| intros ?]
    | match goal with
      | |- preserves _ (match ?x with _ => _ end) => destruct x
      | |- preserves _ (if ?b then _ else _) => destruct b
      end ].

Section FramePool.
Context {V : Type}.
Implicit Types st : PoolState V.

Local Ltac frame_prim index :=
  first [ apply (frame_getitem index)
        | apply (frame_setitem index)
        | apply (frame_counter_getitem index)
        | apply (frame_counter_setitem index) ].

Local Ltac frame_steps index :=
  preserves_steps (@frame_refl V index) (@frame_trans V index)
    ltac:(frame_prim index).

Lemma frame_truncate index w f :
  preserves (frame index) (truncate (V := V) w index f).
Proof. unfold truncate. frame_steps index. Qed.

Lemma frame_truncate_all index w :
  preserves (frame index) (truncate_all (V := V) w index).
Proof.
  unfold truncate_all.
  preserves_steps (@frame_refl V index) (@frame_trans V index)
    ltac:(apply frame_truncate).
Qed.

Lemma frame_extend index f y :
  preserves (frame index) (extend (V := V) index f y).
Proof. unfold extend. frame_steps index. Qed.

Lemma frame_pool_append index s a next_s r done :
  preserves (frame index) (pool_append (V := V) s a next_s r done index).
Proof.
  unfold pool_append, done_pool.
  preserves_steps (@frame_refl V index) (@frame_trans V index)
    ltac:(first [apply frame_extend | frame_prim index]).
Qed.

Lemma frame_pool_clearing cfg index :
  preserves (frame index) (pool_clearing (V := V) cfg index).
Proof.
  unfold pool_clearing.
  preserves_steps (@frame_refl V index) (@frame_trans V index)
    ltac:(first [frame_prim index | apply frame_truncate_all]).
Qed.

Lemma frame_pool_capacity cfg index :
  preserves (frame index) (pool_capacity (V := V) cfg index).
Proof.
  unfold pool_capacity.
  preserves_steps (@frame_refl V index) (@frame_trans V index)
    ltac:(first [frame_prim index | apply frame_truncate_all]).
Qed.

Lemma frame_pool cfg s a next_s r done index :
  preserves (frame index) (pool (V := V) cfg s a next_s r done index).
Proof.
  unfold pool.
  apply (preserves_bind _ (@frame_trans V index));
    [apply frame_pool_append | intros _].
  apply (preserves_bind _ (@frame_trans V index));
    [apply frame_pool_clearing | intros _].
  apply frame_pool_capacity.
Qed.
End FramePool.

(** C10.  A [pool] call at [index], whatever its result, leaves the five
    field entries of every other segment [j] and the counter entry of every
    other [j] as they were. *)
Theorem pool_leaves_other_segments {V} cfg (s : list V) a next_s r done
    index j st res st' :
  pool cfg s a next_s r done index st = (res, st') ->
  j <> index ->
  (forall f, get_list f st' !! j = get_list f st !! j) /\
  counter_at st' j = counter_at st j.
Proof.
  intros Hrun Hj.
  pose proof (frame_pool cfg s a next_s r done index st) as (Hseg & Hcnt & _).
  rewrite Hrun in Hseg, Hcnt. simpl in Hseg, Hcnt.
  split; [intros f; apply Hseg, Hj | apply Hcnt, Hj].
Qed.

(** ** Truncation only removes a prefix *)

Section Eviction.
Context {V : Type}.
Implicit Types st : PoolState V.

Lemma slice_start_le w n : (slice_start w n <= n)%nat.
Proof.
  unfold slice_start. destruct w as [k|]; [|lia].
  destruct (k <? 0) eqn:Hk; lia.
Qed.

Lemma slice_start_nonneg k n :
  0 <= k -> slice_start (Some k) n = Nat.min (Z.to_nat k) n.
Proof.
  intros Hk. unfold slice_start.
  destruct (k <? 0) eqn:E; [apply Z.ltb_lt in E; lia | lia].
Qed.

Lemma slot_suffix_refl (x : slot V) : slot_suffix x x.
Proof. destruct x as [l|]; simpl; auto. exists 0%nat. split; [lia | reflexivity]. Qed.

Lemma slot_suffix_trans (x y z : slot V) :
  slot_suffix x y -> slot_suffix y z -> slot_suffix x z.
Proof.
  destruct x as [l1|], y as [l2|], z as [l3|]; simpl; try tauto.
  intros (k1 & H1 & ->) (k2 & H2 & ->).
  rewrite length_drop in H2.
  exists (k1 + k2)%nat. split; [lia|]. apply drop_drop.
Qed.

Lemma evicts_refl st : evicts st st.
Proof.
  repeat split; auto. intros f j old H. exists old.
  split; [exact H | apply slot_suffix_refl].
Qed.

Lemma evicts_trans st1 st2 st3 :
  evicts st1 st2 -> evicts st2 st3 -> evicts st1 st3.
Proof.
  intros (A1 & B1 & C1) (A2 & B2 & C2). repeat split.
  - intros f. rewrite A2, A1. reflexivity.
  - intros f j old H. destruct (B1 _ _ _ H) as (mid & Hmid & S1).
    destruct (B2 _ _ _ Hmid) as (new & Hnew & S2).
    exists new. split; [exact Hnew | eapply slot_suffix_trans; eauto].
  - congruence.
Qed.

Lemma evicts_truncate w index f :
  preserves evicts (truncate (V := V) w index f).
Proof.
  intros st. unfold truncate, bind, getitem, py_slice_from, setitem, ret, raise.
  destruct (get_list f st !! index) as [[rows|]|] eqn:Hget; simpl;
    try apply evicts_refl.
  case_decide as Hlt; simpl; [|apply evicts_refl].
  repeat split.
  - intros g. rewrite get_set_list. case_decide; subst; auto.
    apply length_insert.
  - intros g j old Hold. rewrite get_set_list.
    case_decide as Hfg; [subst g|].
    + destruct (decide (j = index)) as [->|Hne].
      * rewrite list_lookup_insert_eq by exact Hlt.
        rewrite Hget in Hold. injection Hold as <-.
        eexists. split; [reflexivity|]. simpl.
        exists (slice_start w (length rows)).
        split; [apply slice_start_le | reflexivity].
      * rewrite list_lookup_insert_ne by auto.
        exists old. split; [exact Hold | apply slot_suffix_refl].
    + exists old. split; [exact Hold | apply slot_suffix_refl].
  - destruct f; reflexivity.
Qed.

Lemma evicts_counter_getitem i : preserves evicts (counter_getitem (V := V) i).
Proof.
  intros st. unfold counter_getitem.
  destruct (store_counter st) as [c|]; [destruct (c !! i)|]; apply evicts_refl.
Qed.

Lemma evicts_counter_setitem i n :
  preserves evicts (counter_setitem (V := V) i n).
Proof.
  intros st. unfold counter_setitem.
  destruct (store_counter st) as [c|]; [|apply evicts_refl].
  case_decide; simpl; [|apply evicts_refl].
  repeat split; auto. intros f j old Hold. exists old.
  split; [destruct f; exact Hold | apply slot_suffix_refl].
Qed.

Lemma evicts_getitem f i : preserves evicts (getitem (V := V) f i).
Proof.
  intros st. unfold getitem. destruct (get_list f st !! i); apply evicts_refl.
Qed.

Local Ltac evicts_steps :=
  preserves_steps (@evicts_refl) (@evicts_trans)
    ltac:(first [ apply evicts_truncate | apply evicts_getitem
                | apply evicts_counter_getitem | apply evicts_counter_setitem ]).

Lemma evicts_truncate_all w index :
  preserves evicts (truncate_all (V := V) w index).
Proof. unfold truncate_all. evicts_steps. Qed.

Lemma evicts_pool_clearing cfg index :
  preserves evicts (pool_clearing (V := V) cfg index).
Proof.
  unfold pool_clearing.
  preserves_steps (@evicts_refl) (@evicts_trans)
    ltac:(first [ apply evicts_truncate_all | apply evicts_getitem
                | apply evicts_counter_getitem | apply evicts_counter_setitem ]).
Qed.

Lemma evicts_pool_capacity cfg index :
  preserves evicts (pool_capacity (V := V) cfg index).
Proof.
  unfold pool_capacity.
  preserves_steps (@evicts_refl) (@evicts_trans)
    ltac:(first [ apply evicts_truncate_all | apply evicts_getitem
                | apply evicts_counter_getitem | apply evicts_counter_setitem ]).
Qed.

(** C6.  Whatever the eviction code of one [pool] call (periodic clearing,
    lines 39-46, then capacity enforcement, lines 47-59) does to a written
    field sequence [rows] of any segment, the sequence it leaves is [rows]
    without its first [k] rows for some [k]: only the oldest, lowest-index
    rows are removed, and the row at position [p] afterwards is the row
    that was at position [k + p], so the survivors keep their order. *)
Theorem eviction_removes_oldest cfg index st f j (rows : list V) :
  get_list f st !! j = Some (Some rows) ->
  exists k,
    (k <= length rows)%nat /\
    get_list f ((pool_clearing cfg index ;; pool_capacity cfg index) st).2 !! j
      = Some (Some (drop k rows)) /\
    length (drop k rows) = (length rows - k)%nat /\
    forall p, drop k rows !! p = rows !! (k + p)%nat.
Proof.
  intros Hrows.
  assert (Hev : preserves evicts
                  (pool_clearing (V := V) cfg index ;; pool_capacity cfg index)).
  { apply (preserves_bind _ evicts_trans);
      [apply evicts_pool_clearing | intros _; apply evicts_pool_capacity]. }
  destruct (Hev st) as (_ & Hentries & _).
  destruct (Hentries _ _ _ Hrows) as (new & Hnew & Hsuf).
  destruct new as [l'|]; simpl in Hsuf; [|tauto].
  destruct Hsuf as (k & Hk & ->).
  exists k. split; [exact Hk|]. split; [exact Hnew|].
  split; [apply length_drop | intros p; apply lookup_drop].
Qed.
End Eviction.

(** ** What a run that returns normally looks like *)

Lemma bind_ok_inv {S A B} (m : M S A) (k : A -> M S B) (x : S) b (x' : S) :
  bind m k x = (Ok b, x') ->
  exists a x1, m x = (Ok a, x1) /\ k a x1 = (Ok b, x').
Proof.
  unfold bind. destruct (m x) as [[a|e] x1]; intros H; [eauto | discriminate].
Qed.

Lemma bind_ok {S A B} (m : M S A) (k : A -> M S B) (x : S) a (x1 : S) :
  m x = (Ok a, x1) -> bind m k x = k a x1.
Proof. unfold bind. intros ->. reflexivity. Qed.

Section Runs.
Context {V : Type}.
Implicit Types st : PoolState V.

Lemma lookup_update_slot g f i j x st :
  (i < length (get_list f st))%nat ->
  get_list g (update_slot f i x st) !! j =
    if decide (g = f /\ j = i) then Some x else get_list g st !! j.
Proof.
  intros Hlt. unfold update_slot. rewrite get_set_list.
  destruct (decide (g = f)) as [->|Hne].
  - destruct (decide (j = i)) as [->|Hji].
    + rewrite list_lookup_insert_eq by exact Hlt.
      rewrite decide_True by auto. reflexivity.
    + rewrite list_lookup_insert_ne by auto.
      rewrite decide_False by tauto. reflexivity.
  - rewrite decide_False by tauto. reflexivity.
Qed.

Lemma length_update_slot g f i x st :
  length (get_list g (update_slot f i x st)) = length (get_list g st).
Proof.
  unfold update_slot. rewrite get_set_list.
  case_decide; subst; [apply length_insert | reflexivity].
Qed.

Lemma store_counter_update_slot f i x st :
  store_counter (update_slot f i x st) = store_counter st.
Proof. destruct f; reflexivity. Qed.

Lemma setitem_ok f i x st :
  (i < length (get_list f st))%nat ->
  setitem f i x st = (Ok tt, update_slot f i x st).
Proof. intros H. unfold setitem. rewrite decide_True by exact H. reflexivity. Qed.

Lemma setitem_ok_inv f i x st u st' :
  setitem f i x st = (Ok u, st') ->
  (i < length (get_list f st))%nat /\ st' = update_slot f i x st.
Proof.
  unfold setitem. case_decide; intros Heq; [|discriminate].
  injection Heq as _ <-. auto.
Qed.

Lemma getitem_ok_inv f i st x st' :
  getitem f i st = (Ok x, st') -> get_list f st !! i = Some x /\ st' = st.
Proof.
  unfold getitem. destruct (get_list f st !! i); intros H; [|discriminate].
  injection H as <- <-. auto.
Qed.

Lemma getitem_ok f i st x :
  get_list f st !! i = Some x -> getitem f i st = (Ok x, st).
Proof. unfold getitem. intros ->. reflexivity. Qed.

Lemma get_list_update_slot_other g f i x st :
  g <> f -> get_list g (update_slot f i x st) = get_list g st.
Proof.
  intros Hne. unfold update_slot. rewrite get_set_list.
  rewrite decide_False by exact Hne. reflexivity.
Qed.

Lemma lookup_update_slot_same f i x st :
  (i < length (get_list f st))%nat ->
  get_list f (update_slot f i x st) !! i = Some x.
Proof.
  intros Hlt. rewrite lookup_update_slot by exact Hlt.
  rewrite decide_True by auto. reflexivity.
Qed.

Lemma truncate_ok w index f st l :
  get_list f st !! index = Some (Some l) ->
  truncate w index f st =
    (Ok tt, update_slot f index (Some (drop (slice_start w (length l)) l)) st).
Proof.
  intros Hl. unfold truncate.
  rewrite (bind_ok _ _ _ _ _ (getitem_ok _ _ _ _ Hl)). simpl.
  unfold bind, ret. simpl. apply setitem_ok.
  eapply lookup_lt_Some. exact Hl.
Qed.

(** The five truncations together: every field of the segment loses the
    rows before its own slice start, and nothing else changes. *)
Lemma truncate_all_ok w index st rows :
  written st index rows ->
  exists st',
    truncate_all w index st = (Ok tt, st') /\
    written st' index (fun f => cut w (rows f)) /\
    frame index st st' /\
    store_counter st' = store_counter st.
Proof.
  intros Hw.
  pose proof (frame_truncate_all (V := V) index w st) as Hframe.
  assert (Hlen : forall f, (index < length (get_list f st))%nat).
  { intros f. eapply lookup_lt_Some. apply (Hw f). }
  set (st1 := update_slot F_state index (Some (cut w (rows F_state))) st).
  set (st2 := update_slot F_action index (Some (cut w (rows F_action))) st1).
  set (st3 := update_slot F_next_state index (Some (cut w (rows F_next_state))) st2).
  set (st4 := update_slot F_reward index (Some (cut w (rows F_reward))) st3).
  set (st5 := update_slot F_done index (Some (cut w (rows F_done))) st4).
  assert (E1 : truncate w index F_state st = (Ok tt, st1)).
  { apply truncate_ok, Hw. }
  assert (E2 : truncate w index F_action st1 = (Ok tt, st2)).
  { apply truncate_ok. unfold st1.
    rewrite get_list_update_slot_other by discriminate. apply Hw. }
  assert (E3 : truncate w index F_next_state st2 = (Ok tt, st3)).
  { apply truncate_ok. unfold st2, st1.
    rewrite !get_list_update_slot_other by discriminate. apply Hw. }
  assert (E4 : truncate w index F_reward st3 = (Ok tt, st4)).
  { apply truncate_ok. unfold st3, st2, st1.
    rewrite !get_list_update_slot_other by discriminate. apply Hw. }
  assert (E5 : truncate w index F_done st4 = (Ok tt, st5)).
  { apply truncate_ok. unfold st4, st3, st2, st1.
    rewrite !get_list_update_slot_other by discriminate. apply Hw. }
  assert (E : truncate_all w index st = (Ok tt, st5)).
  { unfold truncate_all.
    rewrite (bind_ok _ _ _ _ _ E1), (bind_ok _ _ _ _ _ E2),
      (bind_ok _ _ _ _ _ E3), (bind_ok _ _ _ _ _ E4). exact E5. }
  exists st5. split; [exact E|]. split; [|split].
  - intros f. unfold st5, st4, st3, st2, st1.
    destruct f;
      repeat (rewrite get_list_update_slot_other by discriminate);
      rewrite lookup_update_slot_same; auto;
      repeat (rewrite length_update_slot); apply Hlen.
  - rewrite E in Hframe. exact Hframe.
  - unfold st5, st4, st3, st2, st1.
    rewrite !store_counter_update_slot. reflexivity.
Qed.
End Runs.

(** ** Capacity enforcement *)

Section Capacity.
Context {V : Type}.
Implicit Types st : PoolState V.

Lemma seg_len_written st index rows :
  written st index rows -> seg_len st index = Z.of_nat (length (rows F_state)).
Proof. intros Hw. unfold seg_len. specialize (Hw F_state). simpl in Hw. rewrite Hw. reflexivity. Qed.

Lemma seg_len_nonneg st index : 0 <= seg_len st index.
Proof. unfold seg_len. destruct (state_pool_list st !! index) as [[l|]|]; lia. Qed.

Lemma cut_nonneg k (rows : list V) :
  0 <= k -> cut (Some k) rows = drop (Nat.min (Z.to_nat k) (length rows)) rows.
Proof. intros Hk. unfold cut. rewrite slice_start_nonneg by exact Hk. reflexivity. Qed.

(** Lines 27-38 return normally only on an unset segment, and then the
    segment holds exactly the sample. *)
Lemma pool_append_ok_inv s a next_s r done index st u st1 :
  pool_append s a next_s r done index st = (Ok u, st1) ->
  state_pool_list st !! index = Some None /\
  written st1 index (sample_rows s a next_s r done) /\
  store_counter st1 = store_counter st.
Proof.
  unfold pool_append. intros H.
  apply bind_ok_inv in H as (cur & st0 & Hget & H).
  apply getitem_ok_inv in Hget as [Hcur ->].
  destruct cur as [old|].
  - exfalso.
    apply bind_ok_inv in H as (? & ? & _ & H).
    apply bind_ok_inv in H as (? & ? & _ & H).
    apply bind_ok_inv in H as (? & ? & _ & H).
    apply bind_ok_inv in H as (? & ? & _ & H).
    apply bind_ok_inv in H as (? & ? & Hd & _).
    discriminate Hd.
  - apply bind_ok_inv in H as ([] & st1' & H1 & H).
    apply setitem_ok_inv in H1 as [L1 ->].
    apply bind_ok_inv in H as ([] & st2' & H2 & H).
    apply setitem_ok_inv in H2 as [L2 ->].
    apply bind_ok_inv in H as ([] & st3' & H3 & H).
    apply setitem_ok_inv in H3 as [L3 ->].
    apply bind_ok_inv in H as ([] & st4' & H4 & H).
    apply setitem_ok_inv in H4 as [L4 ->].
    apply setitem_ok_inv in H as [L5 ->].
    split; [exact Hcur|]. split.
    + intros f.
      destruct f; simpl sample_rows;
        repeat (rewrite get_list_update_slot_other by discriminate);
        apply lookup_update_slot_same; assumption.
    + rewrite !store_counter_update_slot. reflexivity.
Qed.

(** Periodic clearing leaves a written segment written, each field a
    suffix of what it was. *)
Lemma pool_clearing_written cfg index st res st' rows :
  pool_clearing cfg index st = (res, st') ->
  written st index rows ->
  exists rows',
    written st' index rows' /\
    forall f, exists k, (k <= length (rows f))%nat /\ rows' f = drop k (rows f).
Proof.
  intros Hrun Hw.
  pose proof (evicts_pool_clearing (V := V) cfg index st) as (_ & Hent & _).
  rewrite Hrun in Hent. simpl in Hent.
  assert (Hex : forall f, exists l k,
             get_list f st' !! index = Some (Some l) /\
             (k <= length (rows f))%nat /\ l = drop k (rows f)).
  { intros f. destruct (Hent f index _ (Hw f)) as (new & Hnew & Hsuf).
    destruct new as [l|]; simpl in Hsuf; [|tauto].
    destruct Hsuf as (k & Hk & ->). eauto. }
  destruct (Hex F_state) as (l1 & k1 & G1 & K1 & E1).
  destruct (Hex F_action) as (l2 & k2 & G2 & K2 & E2).
  destruct (Hex F_next_state) as (l3 & k3 & G3 & K3 & E3).
  destruct (Hex F_reward) as (l4 & k4 & G4 & K4 & E4).
  destruct (Hex F_done) as (l5 & k5 & G5 & K5 & E5).
  exists (fun f => match f with
                   | F_state => l1 | F_action => l2 | F_next_state => l3
                   | F_reward => l4 | F_done => l5 end).
  split; intros f; destruct f; eauto.
Qed.

(** Lines 47-59 on a written segment: one comparison, and at most one
    truncation of all five fields by the slice [rows[window:]]. *)
Lemma pool_capacity_cut cfg index st rows :
  written st index rows ->
  processes cfg <> 0%nat ->
  exists st',
    pool_capacity cfg index st = (Ok tt, st') /\
    frame index st st' /\
    store_counter st' = store_counter st /\
    if capacity cfg <? seg_len st index
    then written st' index (fun f => cut (Some (window cfg)) (rows f))
    else st' = st.
Proof.
  intros Hw Hp. unfold pool_capacity.
  rewrite (bind_ok _ _ _ _ _ (getitem_ok _ _ _ _ (Hw F_state))).
  simpl py_len. unfold bind at 1, ret at 1.
  unfold math_ceil_div.
  destruct (Z.of_nat (processes cfg) =? 0) eqn:Hz; [apply Z.eqb_eq in Hz; lia|].
  unfold bind at 1, ret at 1.
  rewrite (seg_len_written _ _ _ Hw). fold (capacity cfg).
  rewrite Z.gtb_ltb.
  destruct (capacity cfg <? Z.of_nat (length (rows F_state))) eqn:Hcmp.
  - assert (Hrun : exists st',
               truncate_all (Some (window cfg)) index st = (Ok tt, st') /\
               written st' index (fun f => cut (Some (window cfg)) (rows f)) /\
               frame index st st' /\ store_counter st' = store_counter st)
      by (apply truncate_all_ok; exact Hw).
    destruct Hrun as (st' & Hrun & Hw' & Hf & Hc).
    exists st'. split.
    + unfold window in Hrun. destruct (window_size cfg); exact Hrun.
    + split; [exact Hf|]. split; [exact Hc | exact Hw'].
  - exists st. split; [reflexivity|].
    split; [apply frame_refl|]. split; reflexivity.
Qed.

(** The same with a window that is not negative: the first
    [min(window, length)] rows go. *)
Lemma pool_capacity_spec cfg index st rows :
  written st index rows ->
  processes cfg <> 0%nat ->
  0 <= window cfg ->
  exists st',
    pool_capacity cfg index st = (Ok tt, st') /\
    frame index st st' /\
    store_counter st' = store_counter st /\
    if capacity cfg <? seg_len st index
    then written st' index
           (fun f => drop (Nat.min (Z.to_nat (window cfg)) (length (rows f)))
                       (rows f))
    else st' = st.
Proof.
  intros Hw Hp Hwin.
  destruct (pool_capacity_cut cfg index st rows Hw Hp)
    as (st' & Hrun & Hf & Hc & Hres).
  exists st'. split; [exact Hrun|]. split; [exact Hf|]. split; [exact Hc|].
  destruct (capacity cfg <? seg_len st index); [|exact Hres].
  intros f. rewrite <- cut_nonneg by exact Hwin. apply Hres.
Qed.

(** X8.  The step of the length invariant across the capacity check
    (lines 47-59), for any written segment: with [processes <> 0], a window
    of at least one and a bound [capacity + window - 1] that is not
    negative, a segment of at most [capacity + window] entries is, after
    the check, within [capacity + window - 1]. *)
Lemma pool_capacity_bound cfg index st rows :
  written st index rows ->
  processes cfg <> 0%nat ->
  1 <= window cfg ->
  0 <= capacity cfg + window cfg - 1 ->
  seg_len st index <= capacity cfg + window cfg ->
  seg_len (pool_capacity cfg index st).2 index <= capacity cfg + window cfg - 1.
Proof.
  intros Hw Hp Hwin Hcap Hlen.
  destruct (pool_capacity_spec cfg index st rows Hw Hp) as (st' & Hrun & _ & _ & Hres);
    [lia|].
  rewrite Hrun. simpl.
  destruct (capacity cfg <? seg_len st index) eqn:Hcmp.
  - rewrite (seg_len_written _ _ _ Hres).
    rewrite (seg_len_written _ _ _ Hw) in Hlen.
    rewrite length_drop. lia.
  - subst st'. apply Z.ltb_ge in Hcmp. lia.
Qed.
End Capacity.

Section CapacityClaim.
Context {V : Type}.
Implicit Types st : PoolState V.

Lemma pool_capacity_ok_processes cfg index st rows u st' :
  written st index rows ->
  pool_capacity cfg index st = (Ok u, st') ->
  processes cfg <> 0%nat.
Proof.
  intros Hw Hrun Hz. unfold pool_capacity in Hrun.
  rewrite (bind_ok _ _ _ _ _ (getitem_ok _ _ _ _ (Hw F_state))) in Hrun.
  simpl py_len in Hrun. unfold bind at 1, ret at 1 in Hrun.
  unfold math_ceil_div in Hrun. rewrite Hz in Hrun. discriminate Hrun.
Qed.

End CapacityClaim.

(** ** Periodic clearing on a written segment *)

Section Clearing.
Context {V : Type}.
Implicit Types st : PoolState V.

Lemma get_list_set_store_counter f c st :
  get_list f (set_store_counter c st) = get_list f st.
Proof. destruct f; reflexivity. Qed.

(** X5.  Lines 39-46 when they are reached with the segment written, its
    counter at [c], a non-zero [clearing_freq] and a [window_size_] that is
    not negative: the counter becomes [c + 1], and when that is a multiple
    of [clearing_freq] every field loses its first
    [min(window_size_, length)] rows; otherwise the fields are unchanged. *)
Lemma pool_clearing_spec cfg index st rows freq w c :
  clearing_freq cfg = Some freq ->
  freq <> 0 ->
  window_size_ cfg = Some w ->
  0 <= w ->
  written st index rows ->
  counter_at st index = Some c ->
  exists st',
    pool_clearing cfg index st = (Ok tt, st') /\
    counter_at st' index = Some (c + 1) /\
    frame index st st' /\
    written st' index
      (if (c + 1) mod freq =? 0
       then fun f => drop (Nat.min (Z.to_nat w) (length (rows f))) (rows f)
       else rows).
Proof.
  intros Hfreq Hnz Hwin Hw0 Hw Hc.
  pose proof (frame_pool_clearing (V := V) cfg index st) as Hframe.
  unfold counter_at in Hc.
  destruct (store_counter st) as [cs|] eqn:Hcs; [|discriminate].
  set (st1 := set_store_counter (Some (<[index := c + 1]> cs)) st).
  assert (Hlt : (index < length cs)%nat) by (eapply lookup_lt_Some; exact Hc).
  assert (E1 : counter_getitem index st = (Ok c, st)).
  { unfold counter_getitem. rewrite Hcs, Hc. reflexivity. }
  assert (E2 : counter_setitem index (c + 1) st = (Ok tt, st1)).
  { unfold counter_setitem. rewrite Hcs.
    rewrite decide_True by exact Hlt. reflexivity. }
  assert (E3 : counter_getitem index st1 = (Ok (c + 1), st1)).
  { unfold counter_getitem, st1. simpl.
    rewrite list_lookup_insert_eq by exact Hlt. reflexivity. }
  assert (Hc1 : counter_at st1 index = Some (c + 1)).
  { unfold counter_at, st1. simpl. apply list_lookup_insert_eq. exact Hlt. }
  assert (Hw1 : written st1 index rows).
  { intros f. unfold st1. rewrite get_list_set_store_counter. apply Hw. }
  unfold pool_clearing in *. rewrite Hfreq in *.
  rewrite (bind_ok _ _ _ _ _ E1), (bind_ok _ _ _ _ _ E2),
    (bind_ok _ _ _ _ _ E3) in *.
  unfold py_mod in *.
  destruct (freq =? 0) eqn:Hz; [apply Z.eqb_eq in Hz; contradiction|].
  unfold bind at 1, ret at 1. unfold bind at 1, ret at 1 in Hframe.
  destruct ((c + 1) mod freq =? 0) eqn:Hmod.
  - rewrite Hwin in *.
    destruct (truncate_all_ok (Some w) index st1 rows Hw1)
      as (st' & Hrun & Hw' & _ & Hcnt).
    rewrite Hrun in *. exists st'. split; [reflexivity|].
    split; [unfold counter_at in *; rewrite Hcnt; exact Hc1|].
    split; [exact Hframe|].
    intros f. rewrite <- cut_nonneg by exact Hw0. apply Hw'.
  - exists st1. split; [reflexivity|]. split; [exact Hc1|].
    split; [exact Hframe | exact Hw1].
Qed.
End Clearing.

(** ** Aggregation *)

Section Aggregation.
Context {V : Type}.
Implicit Types st : PoolState V.

Lemma join_slots_written acc (segs : list (list V)) :
  join_slots acc (Some <$> segs) = Ok (acc ++ concat segs).
Proof.
  revert acc. induction segs as [|rows segs IH]; intros acc; simpl.
  - rewrite app_nil_r. reflexivity.
  - rewrite IH, app_assoc. reflexivity.
Qed.

Lemma np_concatenate_written st (segs : list (list V)) :
  segs <> [] ->
  np_concatenate (Some <$> segs) st = (Ok (concat segs), st).
Proof.
  intros Hne. pose proof (join_slots_written [] segs) as Hjoin.
  unfold np_concatenate.
  destruct (Some <$> segs) as [|x l] eqn:E.
  - destruct segs; [contradiction | discriminate E].
  - rewrite Hjoin. reflexivity.
Qed.

Lemma length_concat_sum (segs : list (list V)) :
  length (concat segs) = sum_list (length <$> segs).
Proof.
  induction segs as [|rows segs IH]; simpl; [reflexivity|].
  rewrite length_app, IH. reflexivity.
Qed.

Lemma lookup_concat_offset (segs : list (list V)) i rows j :
  segs !! i = Some rows ->
  (j < length rows)%nat ->
  concat segs !! (offset segs i + j)%nat = rows !! j.
Proof.
  revert i. induction segs as [|r0 segs IH]; intros i Hi Hj; [discriminate|].
  change (concat (r0 :: segs)) with (r0 ++ concat segs).
  destruct i as [|i].
  - injection Hi as ->. change (offset (rows :: segs) 0) with 0%nat.
    apply lookup_app_l. exact Hj.
  - change (offset (r0 :: segs) (S i)) with (length r0 + offset segs i)%nat.
    rewrite lookup_app_r by lia.
    replace (length r0 + offset segs i + j - length r0)%nat
      with (offset segs i + j)%nat by lia.
    apply IH; assumption.
Qed.

(** C9.  On a pool with at least one segment in which every segment is
    written ([segs f] lists the field-[f] sequences of the segments in
    index order), [get_pool] returns, without changing the pool, five
    sequences such that for every field the length is the sum of the
    per-segment lengths and row [j] of segment [i] stands at position
    (rows of the segments before [i]) + [j]: segments in index order, and
    each segment's rows in the order they have in the segment. *)
Theorem get_pool_concatenates st (segs : field -> list (list V)) :
  (forall f, get_list f st = Some <$> segs f) ->
  (forall f, segs f <> []) ->
  exists out,
    get_pool st = (Ok out, st) /\
    forall f,
      length (pool_field f out) = sum_list (length <$> segs f) /\
      forall i rows j x,
        segs f !! i = Some rows ->
        rows !! j = Some x ->
        pool_field f out !! (offset (segs f) i + j)%nat = Some x.
Proof.
  intros Hall Hne.
  exists (concat (segs F_state), concat (segs F_action),
          concat (segs F_next_state), concat (segs F_reward),
          concat (segs F_done)).
  split.
  - unfold get_pool, bind, ret.
    pose proof (Hall F_state) as H1. pose proof (Hall F_action) as H2.
    pose proof (Hall F_next_state) as H3. pose proof (Hall F_reward) as H4.
    pose proof (Hall F_done) as H5. simpl in H1, H2, H3, H4, H5.
    cbv beta. rewrite H1, np_concatenate_written by apply Hne.
    cbv beta iota. rewrite H2, np_concatenate_written by apply Hne.
    cbv beta iota. rewrite H3, np_concatenate_written by apply Hne.
    cbv beta iota. rewrite H4, np_concatenate_written by apply Hne.
    cbv beta iota. rewrite H5, np_concatenate_written by apply Hne.
    reflexivity.
  - intros f.
    assert (Hout : pool_field f
              (concat (segs F_state), concat (segs F_action),
               concat (segs F_next_state), concat (segs F_reward),
               concat (segs F_done)) = concat (segs f))
      by (destruct f; reflexivity).
    rewrite Hout. split; [apply length_concat_sum|].
    intros i rows j x Hi Hj.
    rewrite lookup_concat_offset with (rows := rows);
      [exact Hj | exact Hi | eapply lookup_lt_Some; exact Hj].
Qed.
End Aggregation.

(** ** The worker's loop in deterministic mode *)

Section Deterministic.
Context {V E : Type}.
Variable env_reset : nat -> M E (V * V).
Variable env_step : nat -> V -> M E (V * V * V * V).
Variable truth : V -> bool.
Variable select_action : list V -> M E V.
Variable random_choice : nat -> list Q -> M E nat.
Implicit Types w : World V E.

Lemma stays_on_refl p w : stays_on p w w.
Proof.
  split; [|apply frame_refl].
  exists []. split; [rewrite app_nil_r; reflexivity | constructor].
Qed.

Lemma stays_on_trans p w1 w2 w3 :
  stays_on p w1 w2 -> stays_on p w2 w3 -> stays_on p w1 w3.
Proof.
  intros [(e1 & T1 & F1) Fr1] [(e2 & T2 & F2) Fr2]. split.
  - exists (e1 ++ e2). split.
    + rewrite T2, T1, app_assoc. reflexivity.
    + apply Forall_app. auto.
  - eapply frame_trans; eauto.
Qed.

Lemma stays_on_in_env p {A} (m : M E A) :
  preserves (stays_on p) (in_env (V := V) m).
Proof.
  intros w. unfold in_env. destruct (m (outside w)) as [res e]. simpl.
  split; [|apply frame_refl].
  exists []. split; [rewrite app_nil_r; reflexivity | constructor].
Qed.

Lemma stays_on_in_pool p {A} (m : M (PoolState V) A) :
  preserves (frame p) m -> preserves (stays_on p) (in_pool (E := E) m).
Proof.
  intros Hm w. unfold in_pool. specialize (Hm (shared w)).
  destruct (m (shared w)) as [res st]. simpl in *.
  split; [|exact Hm].
  exists []. split; [rewrite app_nil_r; reflexivity | constructor].
Qed.

Lemma stays_on_emit p ev :
  event_index ev = p -> preserves (stays_on p) (emit (V := V) (E := E) ev).
Proof.
  intros Hev w. unfold emit. simpl. split; [|apply frame_refl].
  exists [ev]. split; [reflexivity | repeat constructor; exact Hev].
Qed.

Lemma stays_on_store_sample cfg p s :
  preserves (stays_on p)
    (store_sample env_step truth select_action cfg p s p).
Proof.
  unfold store_sample.
  apply (preserves_bind _ (stays_on_trans p)); [apply stays_on_in_env|].
  intros a.
  apply (preserves_bind _ (stays_on_trans p)); [apply stays_on_in_env|].
  intros [[[a' next_s] r] done].
  apply (preserves_bind _ (stays_on_trans p));
    [apply stays_on_emit; reflexivity | intros _].
  apply (preserves_bind _ (stays_on_trans p));
    [apply stays_on_in_pool, frame_pool | intros _].
  apply (preserves_bind _ (stays_on_trans p));
    [apply stays_on_emit; reflexivity | intros _].
  apply (preserves_ret _ (stays_on_refl p)).
Qed.

(** With [random = false], lines 65-75 select [p] and touch nothing. *)
Lemma select_index_deterministic cfg p w :
  random cfg = false ->
  select_index random_choice cfg p w = (Ok p, w).
Proof. intros Hr. unfold select_index. rewrite Hr. reflexivity. Qed.

Lemma stays_on_iteration cfg p s :
  random cfg = false ->
  preserves (stays_on p)
    (iteration env_step truth select_action random_choice cfg p s).
Proof.
  intros Hr w. unfold iteration.
  rewrite (bind_ok _ _ _ _ _ (select_index_deterministic cfg p w Hr)).
  apply stays_on_store_sample.
Qed.

Lemma stays_on_driver_loop cfg fuel p s w :
  random cfg = false ->
  stays_on p w
    (driver_loop env_step truth select_action random_choice cfg fuel p s w).2.
Proof.
  intros Hr. revert s w.
  induction fuel as [|fuel IH]; intros s w; simpl; [apply stays_on_refl|].
  pose proof (stays_on_iteration cfg p s Hr w) as Hit.
  destruct (iteration env_step truth select_action random_choice cfg p s w)
    as [[[next_s done]|e] w1]; simpl in *; [|exact Hit].
  destruct done; simpl; [exact Hit|].
  eapply stays_on_trans; [exact Hit | apply IH].
Qed.

(** C7.  With [random = false], after any number of turns of worker [p]'s
    loop (also when the loop has ended by [return] or by an exception),
    every lock operation the worker has performed is on lock [p], and the
    entries of every segment [j <> p] and of every counter [j <> p] are
    what they were when the worker started. *)
Theorem deterministic_worker_stays_on_own_segment cfg fuel p w :
  random cfg = false ->
  let w' := (store_in_parallel env_reset env_step truth select_action
               random_choice cfg fuel p w).2 in
  (exists evs, trace w' = trace w ++ evs /\
               Forall (fun ev => event_index ev = p) evs) /\
  (forall f j, j <> p ->
     get_list f (shared w') !! j = get_list f (shared w) !! j) /\
  (forall j, j <> p -> counter_at (shared w') j = counter_at (shared w) j).
Proof.
  intros Hr w'.
  assert (Hst : stays_on p w w').
  { unfold w', store_in_parallel.
    pose proof (stays_on_in_env p (env_reset p) w) as Hreset.
    destruct (in_env (env_reset p) w) as [[[s a]|e] w1]; simpl in *;
      [|exact Hreset].
    eapply stays_on_trans; [exact Hreset|].
    apply stays_on_driver_loop. exact Hr. }
  destruct Hst as [Htrace (Hseg & Hcnt & _)].
  split; [exact Htrace|]. split; [exact Hseg | exact Hcnt].
Qed.
End Deterministic.

(** ** Index selection in probabilistic mode *)

Section Probabilistic.
Context {V E : Type}.
Variable env_step : nat -> V -> M E (V * V * V * V).
Variable truth : V -> bool.
Variable select_action : list V -> M E V.
Variable random_choice : nat -> list Q -> M E nat.
Implicit Types w : World V E.

Lemma same_weights_refl w : same_weights w w.
Proof. reflexivity. Qed.

Lemma same_weights_trans w1 w2 w3 :
  same_weights w1 w2 -> same_weights w2 w3 -> same_weights w1 w3.
Proof. unfold same_weights. congruence. Qed.

Lemma same_weights_store_sample cfg p s index :
  preserves same_weights
    (store_sample env_step truth select_action cfg p s index).
Proof.
  unfold store_sample.
  assert (Henv : forall A (m : M E A), preserves same_weights (in_env (V := V) m)).
  { intros A m w. unfold in_env, same_weights.
    destruct (m (outside w)); reflexivity. }
  apply (preserves_bind _ same_weights_trans); [apply Henv | intros a].
  apply (preserves_bind _ same_weights_trans); [apply Henv|].
  intros [[[a' next_s] r] done].
  apply (preserves_bind _ same_weights_trans); [intros w; reflexivity | intros _].
  apply (preserves_bind _ same_weights_trans).
  { intros w. unfold in_pool, same_weights.
    pose proof (frame_pool cfg (np_expand_dims s) a' next_s r done index (shared w))
      as (_ & _ & _ & Hinv).
    destruct (pool cfg (np_expand_dims s) a' next_s r done index (shared w)).
    exact Hinv. }
  intros _.
  apply (preserves_bind _ same_weights_trans); [intros w; reflexivity | intros _].
  apply (preserves_ret _ same_weights_refl).
Qed.

End Probabilistic.

(** ** Alignment of the five fields on a normal return *)

Section Alignment.
Context {V : Type}.
Implicit Types st : PoolState V.

Lemma written_aligned st index rows n :
  written st index rows -> (forall f, length (rows f) = n) -> aligned st index.
Proof. intros Hw Hn. exists n. intros f. exists (rows f). auto. Qed.

Lemma counter_getitem_state i st : (counter_getitem i st).2 = st.
Proof.
  unfold counter_getitem.
  destruct (store_counter st) as [c|]; [destruct (c !! i)|]; reflexivity.
Qed.

Lemma counter_setitem_lists i n st f :
  get_list f (counter_setitem i n st).2 = get_list f st.
Proof.
  unfold counter_setitem.
  destruct (store_counter st) as [c|]; [|reflexivity].
  case_decide; [destruct f|]; reflexivity.
Qed.

Lemma py_mod_state c m st : (py_mod c m st).2 = st.
Proof. unfold py_mod. destruct (m =? 0); reflexivity. Qed.

Lemma length_cut w (rows : list V) :
  length (cut w rows) = (length rows - slice_start w (length rows))%nat.
Proof. unfold cut. apply length_drop. Qed.

Lemma pool_clearing_ok_aligned cfg index st u st' rows n :
  written st index rows ->
  (forall f, length (rows f) = n) ->
  pool_clearing cfg index st = (Ok u, st') ->
  aligned st' index.
Proof.
  intros Hw Hn Hrun. unfold pool_clearing in Hrun.
  destruct (clearing_freq cfg) as [freq|].
  - apply bind_ok_inv in Hrun as (c & sta & Hget & Hrun).
    pose proof (counter_getitem_state index st) as Ea.
    rewrite Hget in Ea. simpl in Ea. subst sta.
    apply bind_ok_inv in Hrun as ([] & stb & Hset & Hrun).
    assert (Hwb : written stb index rows).
    { intros f. pose proof (counter_setitem_lists index (c + 1) st f) as Eb.
      rewrite Hset in Eb. simpl in Eb. rewrite Eb. apply Hw. }
    apply bind_ok_inv in Hrun as (c' & stc & Hget2 & Hrun).
    pose proof (counter_getitem_state index stb) as Ec.
    rewrite Hget2 in Ec. simpl in Ec. subst stc.
    apply bind_ok_inv in Hrun as (m & std & Hmod & Hrun).
    pose proof (py_mod_state c' freq stb) as Ed.
    rewrite Hmod in Ed. simpl in Ed. subst std.
    destruct (m =? 0).
    + destruct (truncate_all_ok (window_size_ cfg) index stb rows Hwb)
        as (st2 & Hrun2 & Hw2 & _).
      rewrite Hrun in Hrun2. injection Hrun2 as _ <-.
      eapply written_aligned; [exact Hw2|].
      intros f. cbv beta. rewrite length_cut, Hn. reflexivity.
    + injection Hrun as _ <-. eapply written_aligned; eauto.
  - injection Hrun as _ <-. eapply written_aligned; eauto.
Qed.

(** X3.  A [pool] call with a one-row [s] that returns normally leaves the
    five fields of its segment written and with one common length. *)
Lemma pool_ok_aligned cfg (s : list V) a next_s r done index st st' :
  length s = 1%nat ->
  pool cfg s a next_s r done index st = (Ok tt, st') ->
  aligned st' index.
Proof.
  intros Hs Hrun. unfold pool in Hrun.
  apply bind_ok_inv in Hrun as ([] & st1 & Happ & Hrun).
  apply bind_ok_inv in Hrun as ([] & mid & Hclr & Hcap).
  destruct (pool_append_ok_inv _ _ _ _ _ _ _ _ _ Happ) as (_ & Hw1 & _).
  assert (Hmid : aligned mid index).
  { eapply pool_clearing_ok_aligned; [exact Hw1 | | exact Hclr].
    intros f. destruct f; [exact Hs | reflexivity..]. }
  destruct Hmid as (n & Hmid).
  assert (Hrows : exists rows, written mid index rows /\
                               forall f, length (rows f) = n).
  { destruct (Hmid F_state) as (l1 & G1 & N1).
    destruct (Hmid F_action) as (l2 & G2 & N2).
    destruct (Hmid F_next_state) as (l3 & G3 & N3).
    destruct (Hmid F_reward) as (l4 & G4 & N4).
    destruct (Hmid F_done) as (l5 & G5 & N5).
    exists (fun f => match f with
                     | F_state => l1 | F_action => l2 | F_next_state => l3
                     | F_reward => l4 | F_done => l5 end).
    split; intros f; destruct f; assumption. }
  destruct Hrows as (rows & Hwmid & Hn).
  pose proof (pool_capacity_ok_processes _ _ _ _ _ _ Hwmid Hcap) as Hp.
  destruct (pool_capacity_cut cfg index mid rows Hwmid Hp)
    as (st2 & Hrun2 & _ & _ & Hres).
  rewrite Hcap in Hrun2. injection Hrun2 as <-.
  destruct (capacity cfg <? seg_len mid index).
  - eapply written_aligned; [exact Hres|].
    intros f. cbv beta. rewrite length_cut, Hn. reflexivity.
  - subst st'. eapply written_aligned; eauto.
Qed.
End Alignment.

(** ** The constructor *)

(** C3 on the code.  [__init__] creates the five segment lists, and the
    counter list when [clearing_freq] is given, with no entry at all: no
    index has a segment entry or a counter entry, only [inverse_len] gets
    one entry per worker, and [pool] at any index of the new object raises
    [IndexError] on its first line, leaving the object as it was. *)
Theorem init_creates_no_entries {V} cfg (s : list V) a next_s r done index :
  (forall f, get_list f (init (V := V) cfg) !! index = None) /\
  counter_at (init (V := V) cfg) index = None /\
  length (inverse_len (init (V := V) cfg)) = processes cfg /\
  pool cfg s a next_s r done index (init cfg) = (Raise IndexError, init cfg).
Proof.
  split; [intros f; destruct f; reflexivity|].
  split; [unfold counter_at, init; simpl; destruct (clearing_freq cfg); reflexivity|].
  split; [apply length_replicate | reflexivity].
Qed.

(** ** Concrete runs *)

(** C1 on the code.  After a first sample the five fields of segment 0 have
    length 1.  The next [pool] call on that segment raises [AttributeError]
    at line 38 and leaves four fields with length 2 and [done] with
    length 1. *)
Theorem second_append_breaks_alignment :
  field_lengths (one_sample cfg_plain) 0 = [Some 1; Some 1; Some 1; Some 1; Some 1]%nat /\
  (pool cfg_plain [11] 21 31 1 0 0%nat (one_sample cfg_plain)).1 = Raise AttributeError /\
  field_lengths (pool cfg_plain [11] 21 31 1 0 0%nat (one_sample cfg_plain)).2 0
    = [Some 2; Some 2; Some 2; Some 2; Some 1]%nat.
Proof. repeat split. Qed.

(** C2 on the code.  Lines 34-38 on a written segment: the state, action,
    next-state and reward sequences each get their new last row, then
    line 38 raises and the done sequence stays as it was. *)
Theorem append_is_partial_on_written_segment :
  pool_append [11] 21 31 1 0 0%nat (one_sample cfg_plain) =
    (Raise AttributeError,
     {| state_pool_list := [Some [10; 11]; None];
        action_pool_list := [Some [20; 21]; None];
        next_state_pool_list := [Some [30; 31]; None];
        reward_pool_list := [Some [1; 1]; None];
        done_pool_list := [Some [0]; None];
        inverse_len := [0%Q; 0%Q];
        store_counter := None |}).
Proof. reflexivity. Qed.

(** C4 on the code.  With [clearing_freq=2] and [window_size_=1], the first
    sample of segment 0 is stored and its counter becomes 1.  The second
    call raises at line 38, before line 40: the counter is still 1 and no
    row has been dropped. *)
Theorem second_append_skips_clearing :
  (pool cfg_clearing [10] 20 30 1 0 0%nat (unset_pool cfg_clearing)).1 = Ok tt /\
  counter_at (one_sample cfg_clearing) 0 = Some 1 /\
  (pool cfg_clearing [11] 21 31 1 0 0%nat (one_sample cfg_clearing)).1
    = Raise AttributeError /\
  counter_at (pool cfg_clearing [11] 21 31 1 0 0%nat (one_sample cfg_clearing)).2 0
    = Some 1 /\
  state_pool_list (pool cfg_clearing [11] 21 31 1 0 0%nat (one_sample cfg_clearing)).2
    = [Some [10; 11]].
Proof. repeat split. Qed.

(** C5 on the code.  With [processes=2, pool_size=4] and no window the
    bound [capacity + window - 1] is 2.  After the first sample of segment 0
    every further [pool] call on it raises at line 38, before the capacity
    check of line 47 is reached: no truncation is ever applied, the state
    sequence has 3 rows after two more calls, and after five more calls the
    fields have 6, 6, 6, 6 and 1 rows. *)
Theorem appends_grow_past_capacity :
  capacity cfg_plain + window cfg_plain - 1 = 2 /\
  seg_len (one_sample cfg_plain) 0 = 1 /\
  (forall n, (n < 5)%nat ->
     (pool cfg_plain [11] 21 31 1 0 0%nat
        (pool_again cfg_plain n (one_sample cfg_plain))).1
     = Raise AttributeError) /\
  seg_len (pool_again cfg_plain 2 (one_sample cfg_plain)) 0 = 3 /\
  field_lengths (pool_again cfg_plain 5 (one_sample cfg_plain)) 0
    = [Some 6; Some 6; Some 6; Some 6; Some 1]%nat.
Proof.
  split; [reflexivity|]. split; [reflexivity|]. split; [|split; reflexivity].
  intros n Hn.
  do 5 (destruct n as [|n]; [reflexivity|]). lia.
Qed.

Example bootstrapped_is_first_turn :
  shared (iteration env_step0 truth0 select_action0 random_choice0
            cfg_random 0 5 (world0 (unset_pool cfg_random))).2 = bootstrapped.
Proof. reflexivity. Qed.

(** In probabilistic mode a worker whose own segment is written gets no
    index: lines 70-72 end with the [AttributeError] of the draw, and the
    pool, the weights and the trace are as they were. *)
Lemma select_index_source_draw {V E} cfg p (w : World V E) own :
  random cfg = true ->
  state_pool_list (shared w) !! p = Some (Some own) ->
  select_index source_draw cfg p w
    = (Raise AttributeError, mkWorld (shared w) (outside w) (trace w)).
Proof.
  intros Hr Hown. unfold select_index. rewrite Hr.
  unfold bind, in_pool, in_env, getitem. simpl. unfold slot in *.
  rewrite Hown. reflexivity.
Qed.

(** C8 on the code.  On [bootstrapped] (probabilistic mode, segment 0
    written, weights 1 and 0) the next turn of worker 0 draws no index:
    line 72 raises [AttributeError], line 73 is not reached, no weight is
    set, nothing is stored and no lock is taken; [store_in_parallel] ends
    with that exception. *)
Theorem draw_raises_before_selection :
  select_index source_draw cfg_random 0 (world0 bootstrapped)
    = (Raise AttributeError, world0 bootstrapped) /\
  store_in_parallel env_reset0 env_step0 truth0 select_action0 source_draw
    cfg_random 3 0 (world0 bootstrapped)
    = (Raised AttributeError, world0 bootstrapped) /\
  inverse_len bootstrapped = [1%Q; 0%Q].
Proof. repeat split. Qed.

(** On [bootstrapped] the statement [weight_follows_append] fails for
    worker 0 whatever the draw does: a draw that raises, as the one of the
    source does, selects nothing; were index 0 returned, line 73 would give
    it the weight 1/2 from its length 1 before the append, while the state
    sequence has 2 rows afterwards; index 1 is unset and [len] raises; any
    other index is out of range. *)
Lemma weight_does_not_follow_append :
  ~ exists random_choice,
      weight_follows_append random_choice cfg_random 0 1 (world0 bootstrapped).
Proof.
  intros (rc & j & w1 & Hsel & q & Hq & Heq).
  unfold select_index, bind, in_pool, in_env, getitem in Hsel. simpl in Hsel.
  destruct (rc 2%nat _ tt) as [[j'|e] []]; [|discriminate Hsel].
  destruct j' as [|[|j']]; simpl in Hsel; try discriminate Hsel.
  injection Hsel as <- <-.
  simpl in Hq. injection Hq as <-.
  vm_compute in Heq. discriminate Heq.
Qed.

(** ** Instances *)

Example three_rows_cleared :
  state_pool_list ((pool_clearing cfg_clearing 0 ;; pool_capacity cfg_clearing 0)
                     three_rows).2 = [Some [11; 12]].
Proof. reflexivity. Qed.

Example get_pool_two_written :
  (get_pool two_written).1 =
    Ok ([10; 11; 12], [20; 21; 22], [30; 31; 32], [1; 1; 1], [0; 0; 1]).
Proof. reflexivity. Qed.

(** The eviction theorem on [three_rows], where the counter reaches 2 and
    the clearing of [cfg_clearing] applies. *)
Lemma eviction_removes_oldest_witness :
  get_list F_state three_rows !! 0%nat = Some (Some [10; 11; 12]) /\
  exists k,
    (k <= length [10; 11; 12])%nat /\
    get_list F_state
      ((pool_clearing cfg_clearing 0 ;; pool_capacity cfg_clearing 0) three_rows).2
      !! 0%nat = Some (Some (drop k [10; 11; 12])) /\
    length (drop k [10; 11; 12]) = (length [10; 11; 12] - k)%nat /\
    forall p, drop k [10; 11; 12] !! p = [10; 11; 12] !! (k + p)%nat.
Proof.
  split; [reflexivity|].
  apply (eviction_removes_oldest cfg_clearing 0%nat three_rows F_state 0%nat
           [10; 11; 12]).
  reflexivity.
Defined.

(** The deterministic-mode theorem on three turns of worker 0. *)
Lemma deterministic_worker_witness :
  random cfg_plain = false /\
  let w' := (store_in_parallel env_reset0 env_step0 truth0 select_action0
               random_choice0 cfg_plain 3 0 (world0 (unset_pool cfg_plain))).2 in
  (exists evs, trace w' = trace (world0 (unset_pool cfg_plain)) ++ evs /\
               Forall (fun ev => event_index ev = 0%nat) evs) /\
  (forall f j, j <> 0%nat ->
     get_list f (shared w') !! j = get_list f (unset_pool cfg_plain) !! j) /\
  (forall j, j <> 0%nat ->
     counter_at (shared w') j = counter_at (unset_pool cfg_plain) j).
Proof.
  split; [reflexivity|].
  apply (deterministic_worker_stays_on_own_segment env_reset0 env_step0 truth0
           select_action0 random_choice0 cfg_plain 3 0%nat
           (world0 (unset_pool cfg_plain))).
  reflexivity.
Defined.

Example deterministic_worker_trace :
  trace (store_in_parallel env_reset0 env_step0 truth0 select_action0
           random_choice0 cfg_plain 3 0 (world0 (unset_pool cfg_plain))).2
    = [Acquire 0; Release 0].
Proof. reflexivity. Qed.

(** The aggregation theorem on [two_written]. *)
Lemma get_pool_concatenates_witness :
  (forall f, get_list f two_written = Some <$> two_segments f) /\
  (forall f, two_segments f <> []) /\
  exists out,
    get_pool two_written = (Ok out, two_written) /\
    forall f,
      length (pool_field f out) = sum_list (length <$> two_segments f) /\
      forall i rows j x,
        two_segments f !! i = Some rows ->
        rows !! j = Some x ->
        pool_field f out !! (offset (two_segments f) i + j)%nat = Some x.
Proof.
  assert (H1 : forall f, get_list f two_written = Some <$> two_segments f)
    by (intros f; destruct f; reflexivity).
  assert (H2 : forall f, two_segments f <> [])
    by (intros f; destruct f; discriminate).
  split; [exact H1|]. split; [exact H2|].
  apply (get_pool_concatenates two_written two_segments H1 H2).
Defined.

(** The frame theorem for segment 1 across the first append to segment 0. *)
Lemma pool_leaves_other_segments_witness :
  pool cfg_plain [10] 20 30 1 0 0%nat (unset_pool cfg_plain)
    = (Ok tt, one_sample cfg_plain) /\
  1%nat <> 0%nat /\
  (forall f, get_list f (one_sample cfg_plain) !! 1%nat
             = get_list f (unset_pool cfg_plain) !! 1%nat) /\
  counter_at (one_sample cfg_plain) 1 = counter_at (unset_pool cfg_plain) 1.
Proof.
  assert (H1 : pool cfg_plain [10] 20 30 1 0 0%nat (unset_pool cfg_plain)
               = (Ok tt, one_sample cfg_plain)) by reflexivity.
  assert (H2 : 1%nat <> 0%nat) by lia.
  split; [exact H1|]. split; [exact H2|].
  apply (pool_leaves_other_segments cfg_plain [10] 20 30 1 0 0%nat 1%nat
           (unset_pool cfg_plain) (Ok tt) (one_sample cfg_plain) H1 H2).
Defined.

(** ** Appending: the two branches of [pool] in general *)

Section Append.
Context {V : Type}.
Implicit Types st : PoolState V.

Lemma extend_ok index f y st l :
  get_list f st !! index = Some (Some l) ->
  extend index f y st = (Ok tt, update_slot f index (Some (l ++ y)) st).
Proof.
  intros Hl. unfold extend.
  rewrite (bind_ok _ _ _ _ _ (getitem_ok _ _ _ _ Hl)). simpl.
  unfold bind, ret. simpl. apply setitem_ok.
  eapply lookup_lt_Some. exact Hl.
Qed.

(** Lines 33-38 on a segment whose five fields are written. *)
Lemma pool_append_written s a next_s r done index st rows :
  written st index rows ->
  exists st',
    pool_append s a next_s r done index st = (Raise AttributeError, st') /\
    written st' index
      (fun f => match f with
                | F_done => rows F_done
                | _ => rows f ++ sample_rows s a next_s r done f
                end) /\
    store_counter st' = store_counter st.
Proof.
  intros Hw.
  assert (Hlen : forall f, (index < length (get_list f st))%nat).
  { intros f. eapply lookup_lt_Some. apply (Hw f). }
  set (st1 := update_slot F_state index (Some (rows F_state ++ s)) st).
  set (st2 := update_slot F_action index
                (Some (rows F_action ++ np_expand_dims a)) st1).
  set (st3 := update_slot F_next_state index
                (Some (rows F_next_state ++ np_expand_dims next_s)) st2).
  set (st4 := update_slot F_reward index
                (Some (rows F_reward ++ np_expand_dims r)) st3).
  assert (E0 : getitem F_state index st = (Ok (Some (rows F_state)), st)).
  { apply getitem_ok. apply (Hw F_state). }
  assert (E1 : extend index F_state s st = (Ok tt, st1)).
  { apply extend_ok, Hw. }
  assert (E2 : extend index F_action (np_expand_dims a) st1 = (Ok tt, st2)).
  { apply extend_ok. unfold st1.
    rewrite get_list_update_slot_other by discriminate. apply Hw. }
  assert (E3 : extend index F_next_state (np_expand_dims next_s) st2 = (Ok tt, st3)).
  { apply extend_ok. unfold st2, st1.
    rewrite !get_list_update_slot_other by discriminate. apply Hw. }
  assert (E4 : extend index F_reward (np_expand_dims r) st3 = (Ok tt, st4)).
  { apply extend_ok. unfold st3, st2, st1.
    rewrite !get_list_update_slot_other by discriminate. apply Hw. }
  exists st4. split; [|split].
  - unfold pool_append. rewrite (bind_ok _ _ _ _ _ E0). cbv beta iota.
    rewrite (bind_ok _ _ _ _ _ E1), (bind_ok _ _ _ _ _ E2),
      (bind_ok _ _ _ _ _ E3), (bind_ok _ _ _ _ _ E4).
    reflexivity.
  - intros f. unfold st4, st3, st2, st1.
    destruct f; simpl sample_rows;
      repeat (rewrite get_list_update_slot_other by discriminate);
      first [ apply Hw
            | apply lookup_update_slot_same;
              repeat (rewrite length_update_slot); apply Hlen ].
  - unfold st4, st3, st2, st1. rewrite !store_counter_update_slot. reflexivity.
Qed.

(** Lines 27-32 on an unset segment with an entry in each of the lists. *)
Lemma pool_append_unset s a next_s r done index st :
  state_pool_list st !! index = Some None ->
  (forall f, (index < length (get_list f st))%nat) ->
  exists st',
    pool_append s a next_s r done index st = (Ok tt, st') /\
    written st' index (sample_rows s a next_s r done) /\
    store_counter st' = store_counter st.
Proof.
  intros Hunset Hlen.
  set (st1 := update_slot F_state index (Some s) st).
  set (st2 := update_slot F_action index (Some (np_expand_dims a)) st1).
  set (st3 := update_slot F_next_state index (Some (np_expand_dims next_s)) st2).
  set (st4 := update_slot F_reward index (Some (np_expand_dims r)) st3).
  set (st5 := update_slot F_done index (Some (np_expand_dims done)) st4).
  assert (E0 : getitem F_state index st = (Ok None, st)).
  { apply getitem_ok. exact Hunset. }
  assert (E1 : setitem F_state index (Some s) st = (Ok tt, st1)).
  { apply setitem_ok, Hlen. }
  assert (E2 : setitem F_action index (Some (np_expand_dims a)) st1 = (Ok tt, st2)).
  { apply setitem_ok. unfold st1. rewrite length_update_slot. apply Hlen. }
  assert (E3 : setitem F_next_state index (Some (np_expand_dims next_s)) st2
               = (Ok tt, st3)).
  { apply setitem_ok. unfold st2, st1. rewrite !length_update_slot. apply Hlen. }
  assert (E4 : setitem F_reward index (Some (np_expand_dims r)) st3 = (Ok tt, st4)).
  { apply setitem_ok. unfold st3, st2, st1. rewrite !length_update_slot. apply Hlen. }
  assert (E5 : setitem F_done index (Some (np_expand_dims done)) st4 = (Ok tt, st5)).
  { apply setitem_ok. unfold st4, st3, st2, st1. rewrite !length_update_slot.
    apply Hlen. }
  exists st5. split; [|split].
  - unfold pool_append. rewrite (bind_ok _ _ _ _ _ E0). cbv beta iota.
    rewrite (bind_ok _ _ _ _ _ E1), (bind_ok _ _ _ _ _ E2),
      (bind_ok _ _ _ _ _ E3), (bind_ok _ _ _ _ _ E4). exact E5.
  - intros f. unfold st5, st4, st3, st2, st1.
    destruct f; simpl sample_rows;
      repeat (rewrite get_list_update_slot_other by discriminate);
      apply lookup_update_slot_same;
      repeat (rewrite length_update_slot); apply Hlen.
  - unfold st5, st4, st3, st2, st1. rewrite !store_counter_update_slot.
    reflexivity.
Qed.

(** The whole of [pool] on an unset segment when no clearing is configured:
    the sample is stored, and cut by the window when it alone exceeds the
    capacity. *)
Lemma pool_unset_ok cfg s a next_s r done index st :
  clearing_freq cfg = None ->
  processes cfg <> 0%nat ->
  state_pool_list st !! index = Some None ->
  (forall f, (index < length (get_list f st))%nat) ->
  exists st',
    pool cfg s a next_s r done index st = (Ok tt, st') /\
    written st' index
      (fun f => if capacity cfg <? Z.of_nat (length s)
                then cut (Some (window cfg)) (sample_rows s a next_s r done f)
                else sample_rows s a next_s r done f) /\
    frame index st st' /\
    store_counter st' = store_counter st.
Proof.
  intros Hclr Hp Hunset Hlen.
  pose proof (frame_pool cfg s a next_s r done index st) as Hframe.
  destruct (pool_append_unset s a next_s r done index st Hunset Hlen)
    as (st1 & Happ & Hw1 & Hc1).
  destruct (pool_capacity_cut cfg index st1 _ Hw1 Hp)
    as (st2 & Hcap & _ & Hc2 & Hres).
  assert (Hrun : pool cfg s a next_s r done index st = (Ok tt, st2)).
  { unfold pool. rewrite (bind_ok _ _ _ _ _ Happ).
    unfold pool_clearing. rewrite Hclr.
    unfold bind at 1, ret at 1. exact Hcap. }
  rewrite Hrun in Hframe. simpl in Hframe.
  exists st2. split; [exact Hrun|]. split; [|split].
  - rewrite (seg_len_written _ _ _ Hw1) in Hres. simpl sample_rows in Hres.
    destruct (capacity cfg <? Z.of_nat (length s)); [exact Hres|].
    subst st2. exact Hw1.
  - exact Hframe.
  - congruence.
Qed.
End Append.

Section AppendProperties.
Context {V : Type}.
Implicit Types st : PoolState V.

(** X1.  [pool] on a segment whose five fields are written never returns
    normally: the state, action, next-state and reward sequences get the new
    rows at their end, then line 38 raises [AttributeError]; the done
    sequence, the counters, the weights and all other segments are as they
    were, and neither clearing nor the capacity check is run. *)
Theorem pool_raises_on_written_segment cfg (s : list V) a next_s r done
    index st rows :
  written st index rows ->
  exists st',
    pool cfg s a next_s r done index st = (Raise AttributeError, st') /\
    written st' index
      (fun f => match f with
                | F_done => rows F_done
                | _ => rows f ++ sample_rows s a next_s r done f
                end) /\
    frame index st st' /\
    store_counter st' = store_counter st.
Proof.
  intros Hw.
  destruct (pool_append_written s a next_s r done index st rows Hw)
    as (st' & Happ & Hw' & Hc).
  assert (Hrun : pool cfg s a next_s r done index st = (Raise AttributeError, st')).
  { unfold pool, bind at 1. rewrite Happ. reflexivity. }
  pose proof (frame_pool cfg s a next_s r done index st) as Hframe.
  rewrite Hrun in Hframe.
  exists st'. split; [exact Hrun|]. split; [exact Hw'|]. split; assumption.
Qed.

(** X2.  [pool] on an unset segment, with an entry at [index] in each of the
    five lists, no clearing configured and [processes <> 0], returns
    normally: the segment then holds the sample, one row per field and [s]
    as given, or what the slice by the window leaves of it when [s] alone is
    longer than the capacity.  Nothing else changes. *)
Theorem pool_stores_first_sample cfg (s : list V) a next_s r done index st :
  clearing_freq cfg = None ->
  processes cfg <> 0%nat ->
  state_pool_list st !! index = Some None ->
  (forall f, (index < length (get_list f st))%nat) ->
  exists st',
    pool cfg s a next_s r done index st = (Ok tt, st') /\
    written st' index
      (fun f => if capacity cfg <? Z.of_nat (length s)
                then cut (Some (window cfg)) (sample_rows s a next_s r done f)
                else sample_rows s a next_s r done f) /\
    frame index st st' /\
    store_counter st' = store_counter st.
Proof. apply pool_unset_ok. Qed.

(** X4.  A [pool] call returns normally only as the first write of its
    segment: the segment was unset before, and afterwards each of its five
    fields holds the rows of the sample without some of the first ones. *)
Theorem pool_returns_only_on_first_write cfg (s : list V) a next_s r done
    index st st' :
  pool cfg s a next_s r done index st = (Ok tt, st') ->
  state_pool_list st !! index = Some None /\
  exists rows,
    written st' index rows /\
    forall f, exists k,
      (k <= length (sample_rows s a next_s r done f))%nat /\
      rows f = drop k (sample_rows s a next_s r done f).
Proof.
  intros Hrun. unfold pool in Hrun.
  apply bind_ok_inv in Hrun as ([] & st1 & Happ & Hrun).
  apply bind_ok_inv in Hrun as ([] & mid & Hclr & Hcap).
  destruct (pool_append_ok_inv _ _ _ _ _ _ _ _ _ Happ) as (Hunset & Hw1 & _).
  destruct (pool_clearing_written _ _ _ _ _ _ Hclr Hw1) as (rows & Hwmid & Hsuf).
  pose proof (pool_capacity_ok_processes _ _ _ _ _ _ Hwmid Hcap) as Hp.
  destruct (pool_capacity_cut cfg index mid rows Hwmid Hp)
    as (st2 & Hrun2 & _ & _ & Hres).
  rewrite Hcap in Hrun2. injection Hrun2 as <-.
  split; [exact Hunset|].
  destruct (capacity cfg <? seg_len mid index).
  - eexists. split; [exact Hres|]. intros f. cbv beta.
    destruct (Hsuf f) as (k & Hk & ->). unfold cut.
    rewrite drop_drop.
    pose proof (slice_start_le (Some (window cfg))
                  (length (drop k (sample_rows s a next_s r done f)))) as Hle.
    rewrite length_drop in Hle.
    eexists. split; [|reflexivity]. rewrite length_drop. lia.
  - subst st'. exists rows. split; [exact Hwmid | exact Hsuf].
Qed.

(** X10.  Whatever its result, [pool] adds no entry to and removes no entry
    from any of the five lists, and leaves the weights [inverse_len] as they
    were. *)
Theorem pool_keeps_shape cfg (s : list V) a next_s r done index st :
  (forall f,
     length (get_list f (pool cfg s a next_s r done index st).2)
     = length (get_list f st)) /\
  inverse_len (pool cfg s a next_s r done index st).2 = inverse_len st.
Proof.
  pose proof (frame_pool cfg s a next_s r done index st) as (_ & _ & Hlen & Hinv).
  split; assumption.
Qed.
End AppendProperties.

(** ** Eviction at the edges of its parameters *)

Section EvictionEdges.
Context {V : Type}.
Implicit Types st : PoolState V.

(** Lines 39-46 on a written segment, for any [window_size_]. *)
Lemma pool_clearing_cut cfg index st rows freq c :
  clearing_freq cfg = Some freq ->
  freq <> 0 ->
  written st index rows ->
  counter_at st index = Some c ->
  exists st',
    pool_clearing cfg index st = (Ok tt, st') /\
    counter_at st' index = Some (c + 1) /\
    frame index st st' /\
    written st' index
      (if (c + 1) mod freq =? 0
       then fun f => cut (window_size_ cfg) (rows f)
       else rows).
Proof.
  intros Hfreq Hnz Hw Hc.
  pose proof (frame_pool_clearing (V := V) cfg index st) as Hframe.
  unfold counter_at in Hc.
  destruct (store_counter st) as [cs|] eqn:Hcs; [|discriminate].
  set (st1 := set_store_counter (Some (<[index := c + 1]> cs)) st).
  assert (Hlt : (index < length cs)%nat) by (eapply lookup_lt_Some; exact Hc).
  assert (E1 : counter_getitem index st = (Ok c, st)).
  { unfold counter_getitem. rewrite Hcs, Hc. reflexivity. }
  assert (E2 : counter_setitem index (c + 1) st = (Ok tt, st1)).
  { unfold counter_setitem. rewrite Hcs.
    rewrite decide_True by exact Hlt. reflexivity. }
  assert (E3 : counter_getitem index st1 = (Ok (c + 1), st1)).
  { unfold counter_getitem, st1. simpl.
    rewrite list_lookup_insert_eq by exact Hlt. reflexivity. }
  assert (Hc1 : counter_at st1 index = Some (c + 1)).
  { unfold counter_at, st1. simpl. apply list_lookup_insert_eq. exact Hlt. }
  assert (Hw1 : written st1 index rows).
  { intros f. unfold st1. rewrite get_list_set_store_counter. apply Hw. }
  unfold pool_clearing in *. rewrite Hfreq in *.
  rewrite (bind_ok _ _ _ _ _ E1), (bind_ok _ _ _ _ _ E2),
    (bind_ok _ _ _ _ _ E3) in *.
  unfold py_mod in *.
  destruct (freq =? 0) eqn:Hz; [apply Z.eqb_eq in Hz; contradiction|].
  unfold bind at 1, ret at 1. unfold bind at 1, ret at 1 in Hframe.
  destruct ((c + 1) mod freq =? 0) eqn:Hmod.
  - destruct (truncate_all_ok (window_size_ cfg) index st1 rows Hw1)
      as (st' & Hrun & Hw' & _ & Hcnt).
    rewrite Hrun in *. exists st'. split; [reflexivity|].
    split; [unfold counter_at in *; rewrite Hcnt; exact Hc1|].
    split; [exact Hframe | exact Hw'].
  - exists st1. split; [reflexivity|]. split; [exact Hc1|].
    split; [exact Hframe | exact Hw1].
Qed.

(** X6.  With [clearing_freq] configured and [window_size_] left at [None],
    periodic clearing only counts: on a written segment lines 39-46 return
    normally, the counter goes up by one, and every field keeps all its
    rows, also when the counter reaches a multiple of [clearing_freq]
    (the slice [x[None:]] is all of [x]). *)
Theorem clearing_without_window_drops_nothing cfg index st rows freq c :
  clearing_freq cfg = Some freq ->
  freq <> 0 ->
  window_size_ cfg = None ->
  written st index rows ->
  counter_at st index = Some c ->
  exists st',
    pool_clearing cfg index st = (Ok tt, st') /\
    counter_at st' index = Some (c + 1) /\
    frame index st st' /\
    written st' index rows.
Proof.
  intros Hfreq Hnz Hwin Hw Hc.
  destruct (pool_clearing_cut cfg index st rows freq c Hfreq Hnz Hw Hc)
    as (st' & Hrun & Hc' & Hf & Hw').
  exists st'. split; [exact Hrun|]. split; [exact Hc'|]. split; [exact Hf|].
  rewrite Hwin in Hw'.
  destruct ((c + 1) mod freq =? 0); exact Hw'.
Qed.

(** X7.  With [clearing_freq = 0], lines 39-41 raise [ZeroDivisionError]
    at the remainder of line 41, after line 40 has counted the append: the
    counter is one higher and the five lists are as they were. *)
Theorem clearing_freq_zero_raises_after_counting cfg index st c :
  clearing_freq cfg = Some 0 ->
  counter_at st index = Some c ->
  exists st',
    pool_clearing cfg index st = (Raise ZeroDivisionError, st') /\
    counter_at st' index = Some (c + 1) /\
    (forall f, get_list f st' = get_list f st) /\
    inverse_len st' = inverse_len st.
Proof.
  intros Hfreq Hc. unfold counter_at in Hc.
  destruct (store_counter st) as [cs|] eqn:Hcs; [|discriminate].
  set (st1 := set_store_counter (Some (<[index := c + 1]> cs)) st).
  assert (Hlt : (index < length cs)%nat) by (eapply lookup_lt_Some; exact Hc).
  assert (E1 : counter_getitem index st = (Ok c, st)).
  { unfold counter_getitem. rewrite Hcs, Hc. reflexivity. }
  assert (E2 : counter_setitem index (c + 1) st = (Ok tt, st1)).
  { unfold counter_setitem. rewrite Hcs.
    rewrite decide_True by exact Hlt. reflexivity. }
  assert (E3 : counter_getitem index st1 = (Ok (c + 1), st1)).
  { unfold counter_getitem, st1. simpl.
    rewrite list_lookup_insert_eq by exact Hlt. reflexivity. }
  exists st1. split; [|split; [|split]].
  - unfold pool_clearing. rewrite Hfreq.
    rewrite (bind_ok _ _ _ _ _ E1), (bind_ok _ _ _ _ _ E2),
      (bind_ok _ _ _ _ _ E3).
    reflexivity.
  - unfold counter_at, st1. simpl. apply list_lookup_insert_eq. exact Hlt.
  - intros f. unfold st1. apply get_list_set_store_counter.
  - reflexivity.
Qed.

Lemma cut_negative k (rows : list V) :
  k < 0 ->
  cut (Some k) rows = drop (length rows - Z.to_nat (- k)) rows.
Proof.
  intros Hk. unfold cut, slice_start.
  destruct (k <? 0) eqn:E; [|apply Z.ltb_ge in E; lia].
  f_equal. lia.
Qed.

(** X9.  A negative [window_size] turns the overflow truncation around:
    when a written segment is longer than the capacity, lines 47-53 keep the
    last [-window_size] rows of every field (all rows of a field that has no
    more than that) instead of dropping rows from the front by count. *)
Theorem negative_window_keeps_tail cfg index st rows k :
  written st index rows ->
  processes cfg <> 0%nat ->
  window_size cfg = Some k ->
  k < 0 ->
  capacity cfg < seg_len st index ->
  exists st',
    pool_capacity cfg index st = (Ok tt, st') /\
    written st' index
      (fun f => drop (length (rows f) - Z.to_nat (- k)) (rows f)) /\
    (forall f, length (drop (length (rows f) - Z.to_nat (- k)) (rows f))
               = Nat.min (Z.to_nat (- k)) (length (rows f))).
Proof.
  intros Hw Hp Hwin Hk Hover.
  destruct (pool_capacity_cut cfg index st rows Hw Hp)
    as (st' & Hrun & _ & _ & Hres).
  apply Z.ltb_lt in Hover. rewrite Hover in Hres.
  exists st'. split; [exact Hrun|]. split.
  - intros f. specialize (Hres f). cbv beta in Hres.
    unfold window in Hres. rewrite Hwin in Hres. simpl default in Hres.
    rewrite cut_negative in Hres by exact Hk. exact Hres.
  - intros f. rewrite length_drop. lia.
Qed.
End EvictionEdges.

(** ** When aggregation fails *)

Section AggregationOutcome.
Context {V : Type}.
Implicit Types st : PoolState V.

Lemma join_slots_cases (acc : list V) (l : list (slot V)) :
  (Forall is_Some l /\ exists x, join_slots acc l = Ok x) \/
  (~ Forall is_Some l /\ join_slots acc l = Raise ValueError).
Proof.
  revert acc. induction l as [|[rows|] l IH]; intros acc; simpl.
  - left. split; [constructor | eauto].
  - destruct (IH (acc ++ rows)) as [[Hall Hok]|[Hnot Hraise]].
    + left. split; [constructor; [eexists; reflexivity | exact Hall] | exact Hok].
    + right. split; [|exact Hraise].
      intros Hall. apply Hnot. inversion Hall; assumption.
  - right. split; [|reflexivity].
    intros Hall. inversion Hall as [|? ? Hsome _]. destruct Hsome; discriminate.
Qed.

Lemma np_concatenate_cases (l : list (slot V)) st :
  (all_written l /\ exists x, np_concatenate l st = (Ok x, st)) \/
  (~ all_written l /\ np_concatenate l st = (Raise ValueError, st)).
Proof.
  destruct l as [|x l].
  - right. split; [intros [Hne _]; contradiction | reflexivity].
  - unfold np_concatenate.
    destruct (join_slots_cases [] (x :: l)) as [[Hall [y Hok]]|[Hnot Hraise]].
    + left. split; [split; [discriminate | exact Hall]|].
      exists y. rewrite Hok. reflexivity.
    + right. split; [intros [_ Hall]; contradiction|].
      rewrite Hraise. reflexivity.
Qed.

(** X11.  [get_pool] never changes the pool.  It returns normally exactly
    when each of the five lists has at least one entry and no unset entry;
    in every other case (no segment at all, as right after construction, or
    some segment not yet written) it raises [ValueError]. *)
Theorem get_pool_outcome st :
  (get_pool st).2 = st /\
  ((forall f, all_written (get_list f st)) ->
   exists out, (get_pool st).1 = Ok out) /\
  (~ (forall f, all_written (get_list f st)) ->
   (get_pool st).1 = Raise ValueError).
Proof.
  unfold get_pool, bind, ret. cbv beta.
  destruct (np_concatenate_cases (state_pool_list st) st) as [[G1 [x1 E1]]|[B E]];
    [rewrite E1; cbv beta iota
    | rewrite E; split; [reflexivity|]; split;
      [intros H; destruct (B (H F_state)) | reflexivity]].
  destruct (np_concatenate_cases (action_pool_list st) st) as [[G2 [x2 E2]]|[B E]];
    [rewrite E2; cbv beta iota
    | rewrite E; split; [reflexivity|]; split;
      [intros H; destruct (B (H F_action)) | reflexivity]].
  destruct (np_concatenate_cases (next_state_pool_list st) st) as [[G3 [x3 E3]]|[B E]];
    [rewrite E3; cbv beta iota
    | rewrite E; split; [reflexivity|]; split;
      [intros H; destruct (B (H F_next_state)) | reflexivity]].
  destruct (np_concatenate_cases (reward_pool_list st) st) as [[G4 [x4 E4]]|[B E]];
    [rewrite E4; cbv beta iota
    | rewrite E; split; [reflexivity|]; split;
      [intros H; destruct (B (H F_reward)) | reflexivity]].
  destruct (np_concatenate_cases (done_pool_list st) st) as [[G5 [x5 E5]]|[B E]];
    [rewrite E5; cbv beta iota
    | rewrite E; split; [reflexivity|]; split;
      [intros H; destruct (B (H F_done)) | reflexivity]].
  split; [reflexivity|]. split; [eauto|].
  intros Hnot. exfalso. apply Hnot. intros f. destruct f; assumption.
Qed.
End AggregationOutcome.

(** ** Locks and the worker's loop *)

Section Locks.
Context {V E : Type}.
Variable env_reset : nat -> M E (V * V).
Variable env_step : nat -> V -> M E (V * V * V * V).
Variable truth : V -> bool.
Variable select_action : list V -> M E V.
Variable random_choice : nat -> list Q -> M E nat.
Implicit Types w : World V E.

Lemma in_env_world {A} (m : M E A) w :
  shared (in_env (V := V) m w).2 = shared w /\
  trace (in_env (V := V) m w).2 = trace w.
Proof. unfold in_env. destruct (m (outside w)); split; reflexivity. Qed.

Lemma in_pool_world {A} (m : M (PoolState V) A) w :
  outside (in_pool (E := E) m w).2 = outside w /\
  trace (in_pool (E := E) m w).2 = trace w.
Proof. unfold in_pool. destruct (m (shared w)); split; reflexivity. Qed.

Lemma same_trace_refl w : same_trace w w.
Proof. reflexivity. Qed.

Lemma same_trace_trans w1 w2 w3 :
  same_trace w1 w2 -> same_trace w2 w3 -> same_trace w1 w3.
Proof. unfold same_trace. congruence. Qed.

Lemma same_trace_in_env {A} (m : M E A) :
  preserves (same_trace (V := V) (E := E)) (in_env (V := V) m).
Proof. intros w. apply in_env_world. Qed.

Lemma same_trace_in_pool {A} (m : M (PoolState V) A) :
  preserves (same_trace (V := V) (E := E)) (in_pool (E := E) m).
Proof. intros w. apply in_pool_world. Qed.

Lemma same_trace_select_index cfg p :
  preserves (same_trace (V := V) (E := E)) (select_index random_choice cfg p).
Proof.
  unfold select_index.
  preserves_steps (@same_trace_refl) (@same_trace_trans)
    ltac:(first [apply same_trace_in_env | apply same_trace_in_pool]).
Qed.

(** What one call of lines 76-84 adds to the trace. *)
Lemma store_sample_trace cfg p s index w :
  let run := store_sample env_step truth select_action cfg p s index w in
  (trace run.2 = trace w /\ exists e, run.1 = Raise e) \/
  (trace run.2 = trace w ++ [Acquire index] /\ exists e, run.1 = Raise e) \/
  (trace run.2 = trace w ++ holds index /\ exists x, run.1 = Ok x).
Proof.
  unfold store_sample, bind.
  pose proof (in_env_world (select_action (np_expand_dims s)) w) as [_ T1].
  destruct (in_env (select_action (np_expand_dims s)) w) as [[a|e] w1];
    simpl in T1; [|left; simpl; eauto].
  pose proof (in_env_world (env_step p a) w1) as [_ T2].
  destruct (in_env (env_step p a) w1) as [[[[[a' next_s] r] done]|e] w2];
    simpl in T2; [|left; simpl; split; [congruence | eauto]].
  unfold emit. cbv beta iota.
  pose proof (in_pool_world (pool cfg (np_expand_dims s) a' next_s r done index)
                (mkWorld (shared w2) (outside w2) (trace w2 ++ [Acquire index])))
    as [_ T4].
  destruct (in_pool (pool cfg (np_expand_dims s) a' next_s r done index)
              (mkWorld (shared w2) (outside w2) (trace w2 ++ [Acquire index])))
    as [[[]|e] w4]; simpl in T4.
  - right. right. simpl. split; [|eauto].
    rewrite T4, T2, T1, <- app_assoc. reflexivity.
  - right. left. simpl. split; [|eauto].
    rewrite T4, T2, T1. reflexivity.
Qed.

Lemma iteration_trace cfg p s w :
  let run := iteration env_step truth select_action random_choice cfg p s w in
  (trace run.2 = trace w /\ exists e, run.1 = Raise e) \/
  (exists index,
     trace run.2 = trace w ++ [Acquire index] /\ exists e, run.1 = Raise e) \/
  (exists index,
     trace run.2 = trace w ++ holds index /\ exists x, run.1 = Ok x).
Proof.
  unfold iteration, bind.
  pose proof (same_trace_select_index cfg p w) as T0. unfold same_trace in T0.
  destruct (select_index random_choice cfg p w) as [[index|e] w0];
    simpl in T0; [|left; simpl; eauto].
  pose proof (store_sample_trace cfg p s index w0) as Hs. cbv zeta in Hs.
  rewrite T0 in Hs.
  destruct Hs as [Hs|[Hs|Hs]]; [left | right; left | right; right]; eauto.
Qed.

(** X12.  The lock operations of one worker, after any number of turns, are
    a sequence of acquire-release pairs, each pair on one lock, followed by
    at most one acquire without its release; that last case occurs only in
    a run that ended with an exception, and a run that ended by [return]
    has stored at least one sample. *)
Theorem worker_locks_are_paired cfg fuel p w :
  exists idxs tail,
    trace (store_in_parallel env_reset env_step truth select_action
             random_choice cfg fuel p w).2
      = trace w ++ concat (holds <$> idxs) ++ tail /\
    (tail = [] \/
     exists index e,
       tail = [Acquire index] /\
       (store_in_parallel env_reset env_step truth select_action
          random_choice cfg fuel p w).1 = Raised e) /\
    ((store_in_parallel env_reset env_step truth select_action
        random_choice cfg fuel p w).1 = Returned -> idxs <> []).
Proof.
  assert (Hloop : forall fuel s w,
    exists idxs tail,
      trace (driver_loop env_step truth select_action random_choice
               cfg fuel p s w).2
        = trace w ++ concat (holds <$> idxs) ++ tail /\
      (tail = [] \/
       exists index e,
         tail = [Acquire index] /\
         (driver_loop env_step truth select_action random_choice
            cfg fuel p s w).1 = Raised e) /\
      ((driver_loop env_step truth select_action random_choice
          cfg fuel p s w).1 = Returned -> idxs <> [])).
  { clear fuel w. induction fuel as [|fuel IH]; intros s w; simpl.
    - exists [], []. simpl. rewrite ?app_nil_r.
      split; [reflexivity|]. split; [left; reflexivity | discriminate].
    - pose proof (iteration_trace cfg p s w) as Hit. cbv zeta in Hit.
      destruct (iteration env_step truth select_action random_choice cfg p s w)
        as [[[next_s done]|e] w1]; simpl in Hit.
      + destruct Hit as [[_ [e He]]|[(i & _ & [e He])|(i & Ht & _)]];
          try discriminate He.
        destruct done; simpl.
        * exists [i], []. simpl. rewrite ?app_nil_r.
          split; [exact Ht|]. split; [left; reflexivity | discriminate].
        * destruct (IH next_s w1) as (idxs & tail & Htr & Htail & Hret).
          exists (i :: idxs), tail. split; [|split].
          -- rewrite Htr, Ht. simpl. rewrite <- !app_assoc. reflexivity.
          -- exact Htail.
          -- discriminate.
      + destruct Hit as [[Ht _]|[(i & Ht & _)|(i & _ & [x Hx])]];
          try discriminate Hx.
        * exists [], []. simpl. rewrite ?app_nil_r.
          split; [exact Ht|]. split; [left; reflexivity | discriminate].
        * exists [], [Acquire i]. simpl.
          split; [exact Ht|]. split; [right; eauto | discriminate]. }
  unfold store_in_parallel.
  pose proof (in_env_world (env_reset p) w) as [_ T0].
  destruct (in_env (env_reset p) w) as [[[s a]|e] w0]; simpl in T0.
  - destruct (Hloop fuel s w0) as (idxs & tail & Htr & Htail & Hret).
    exists idxs, tail. rewrite Htr, T0. auto.
  - exists [], []. simpl. rewrite ?app_nil_r.
    split; [exact T0|]. split; [left; reflexivity | discriminate].
Qed.

(** X14.  No release on an exception: when policy and environment answer
    and [pool] raises, lines 76-84 end with that exception and with the
    lock of the chosen segment acquired and not released. *)
Theorem lock_left_held_when_pool_raises cfg p s index w a e1 a' next_s r done
    e2 exc st' :
  select_action (np_expand_dims s) (outside w) = (Ok a, e1) ->
  env_step p a e1 = (Ok (a', next_s, r, done), e2) ->
  pool cfg (np_expand_dims s) a' next_s r done index (shared w) = (Raise exc, st') ->
  store_sample env_step truth select_action cfg p s index w
    = (Raise exc, mkWorld st' e2 (trace w ++ [Acquire index])).
Proof.
  intros Hact Hstep Hpool.
  unfold store_sample, bind, in_env, in_pool, emit. simpl.
  rewrite Hact. simpl. rewrite Hstep. simpl. rewrite Hpool. reflexivity.
Qed.
End Locks.

(** ** The worker on a new pool, and its first turn *)

Section FirstTurn.
Context {V E : Type}.
Variable env_reset : nat -> M E (V * V).
Variable env_step : nat -> V -> M E (V * V * V * V).
Variable truth : V -> bool.
Variable select_action : list V -> M E V.
Variable random_choice : nat -> list Q -> M E nat.
Implicit Types w : World V E.

Lemma iteration_on_new_pool cfg p s w :
  shared w = init cfg ->
  exists e w',
    iteration env_step truth select_action random_choice cfg p s w = (Raise e, w') /\
    shared w' = init cfg.
Proof.
  intros Hnew. unfold iteration, bind, select_index.
  destruct (random cfg).
  - unfold bind, in_pool, getitem. rewrite Hnew. simpl.
    eexists _, _. split; [reflexivity | reflexivity].
  - unfold ret at 1. cbv beta iota. unfold store_sample, bind.
    pose proof (in_env_world (select_action (np_expand_dims s)) w) as [S1 _].
    destruct (in_env (select_action (np_expand_dims s)) w) as [[a|e] w1];
      simpl in S1; [|eexists _, _; split; [reflexivity | congruence]].
    pose proof (in_env_world (env_step p a) w1) as [S2 _].
    destruct (in_env (env_step p a) w1) as [[[[[a' next_s] r] done]|e] w2];
      simpl in S2; [|eexists _, _; split; [reflexivity | congruence]].
    unfold emit, in_pool. cbv beta iota. simpl shared.
    rewrite S2, S1, Hnew.
    assert (Hpool : pool cfg (np_expand_dims s) a' next_s r done p (init cfg)
                    = (Raise IndexError, init cfg)) by reflexivity.
    rewrite Hpool. eexists _, _. split; reflexivity.
Qed.

(** X13.  On a pool as [__init__] leaves it, a worker never stores
    anything: whatever the mode, the environment and the policy do and
    however long the loop is given, [store_in_parallel] does not end by
    [return] and the shared lists are as the constructor made them. *)
Theorem worker_on_new_pool_stores_nothing cfg fuel p w :
  shared w = init cfg ->
  (store_in_parallel env_reset env_step truth select_action random_choice
     cfg fuel p w).1 <> Returned /\
  shared (store_in_parallel env_reset env_step truth select_action
            random_choice cfg fuel p w).2 = init cfg.
Proof.
  intros Hnew. unfold store_in_parallel.
  pose proof (in_env_world (env_reset p) w) as [S0 _].
  destruct (in_env (env_reset p) w) as [[[s a]|e] w0]; simpl in S0;
    [|split; [discriminate | simpl; congruence]].
  rewrite Hnew in S0.
  destruct fuel as [|fuel]; simpl; [split; [discriminate | exact S0]|].
  destruct (iteration_on_new_pool cfg p s w0 S0) as (e & w' & Hit & Hsh).
  rewrite Hit. split; [discriminate | exact Hsh].
Qed.

(** The world that index selection leaves: the one it started from, up to
    the surroundings, with at most one weight assigned. *)
Lemma select_index_world cfg p w :
  exists e,
    (select_index random_choice cfg p w).2 = mkWorld (shared w) e (trace w) \/
    exists j q,
      (j < length (inverse_len (shared w)))%nat /\
      (select_index random_choice cfg p w).2 = with_weight j q e w.
Proof.
  destruct w as [st e0 tr].
  destruct (select_index random_choice cfg p (mkWorld st e0 tr))
    as [res w'] eqn:Hrun.
  simpl. unfold select_index in Hrun.
  destruct (random cfg);
    [|unfold ret in Hrun; cbv beta in Hrun; injection Hrun as <- <-;
      exists e0; left; reflexivity].
  unfold bind, ret, raise, py_len, in_pool, in_env, getitem, inverse_setitem,
    with_weight in *.
  simpl in *.
  match type of Hrun with
  | context [match ?l !! p with _ => _ end] =>
      destruct (l !! p) as [[own|]|]
  end; simpl in Hrun.
  - match type of Hrun with
    | context [random_choice ?n ?pr ?e] =>
        destruct (random_choice n pr e) as [[j|ex] e1]
    end; simpl in Hrun;
      [|injection Hrun as <- <-; exists e1; left; reflexivity].
    match type of Hrun with
    | context [match ?l !! j with _ => _ end] =>
        destruct (l !! j) as [[rows|]|]
    end; simpl in Hrun;
      [| injection Hrun as <- <-; exists e1; left; reflexivity
       | injection Hrun as <- <-; exists e1; left; reflexivity].
    destruct (decide (j < length (inverse_len st))%nat) as [Hlt|Hge];
      simpl in Hrun; injection Hrun as <- <-; exists e1.
    + right. exists j, (inverse_weight (Z.of_nat (length rows))).
      split; [exact Hlt | reflexivity].
    + left. reflexivity.
  - destruct (decide (p < length (inverse_len st))%nat) as [Hlt|Hge];
      simpl in Hrun; injection Hrun as <- <-; exists e0.
    + right. exists p, 1%Q. split; [exact Hlt | reflexivity].
    + left. reflexivity.
  - injection Hrun as <- <-. exists e0. left. reflexivity.
Qed.

(** X15.  Index selection (lines 65-75) changes nothing but weights:
    whatever its result, the five lists, the counters and the trace are as
    before, [inverse_len] has the same number of entries, and at most one
    of its entries has changed. *)
Theorem select_index_changes_one_weight cfg p w :
  let w' := (select_index random_choice cfg p w).2 in
  (forall f, get_list f (shared w') = get_list f (shared w)) /\
  store_counter (shared w') = store_counter (shared w) /\
  trace w' = trace w /\
  length (inverse_len (shared w')) = length (inverse_len (shared w)) /\
  exists j, forall i, i <> j ->
    inverse_len (shared w') !! i = inverse_len (shared w) !! i.
Proof.
  cbv zeta.
  destruct (select_index_world cfg p w) as (e & [Hw|(j & q & Hlt & Hw)]);
    rewrite Hw.
  - simpl. repeat split; auto. exists 0%nat. auto.
  - unfold with_weight. simpl.
    split; [intros f; destruct f; reflexivity|].
    split; [reflexivity|]. split; [reflexivity|].
    split; [apply length_insert|].
    exists j. intros i Hi. apply list_lookup_insert_ne. auto.
Qed.
End FirstTurn.

Section Bootstrap.
Context {V E : Type}.
Variable env_step : nat -> V -> M E (V * V * V * V).
Variable truth : V -> bool.
Variable select_action : list V -> M E V.
Variable random_choice : nat -> list Q -> M E nat.
Implicit Types w : World V E.

(** X16.  The first turn of a worker in probabilistic mode, on a pool with
    an unset entry for [p] in every list, no clearing and a capacity of at
    least one: when policy and environment answer, the turn makes no draw,
    gives segment [p] the weight 1, takes and releases lock [p] once, and
    leaves segment [p] holding exactly the sample, one row per field; the
    other segments and weights are untouched. *)
Theorem first_turn_bootstraps cfg p s w a e1 a' next_s r done e2 :
  random cfg = true ->
  clearing_freq cfg = None ->
  processes cfg <> 0%nat ->
  1 <= capacity cfg ->
  state_pool_list (shared w) !! p = Some None ->
  (forall f, (p < length (get_list f (shared w)))%nat) ->
  (p < length (inverse_len (shared w)))%nat ->
  select_action (np_expand_dims s) (outside w) = (Ok a, e1) ->
  env_step p a e1 = (Ok (a', next_s, r, done), e2) ->
  exists st',
    iteration env_step truth select_action random_choice cfg p s w
      = (Ok (next_s, truth done), mkWorld st' e2 (trace w ++ holds p)) /\
    written st' p (sample_rows (np_expand_dims s) a' next_s r done) /\
    inverse_len st' = <[p := 1%Q]> (inverse_len (shared w)) /\
    (forall f j, j <> p -> get_list f st' !! j = get_list f (shared w) !! j).
Proof.
  intros Hr Hclr Hp Hcap Hunset Hlen Hlt Hact Hstep.
  set (st0 := set_inverse_len (<[p := 1%Q]> (inverse_len (shared w))) (shared w)).
  assert (Hsel : select_index random_choice cfg p w
                 = (Ok p, with_weight p 1%Q (outside w) w)).
  { unfold select_index. rewrite Hr.
    unfold bind, in_pool, getitem. simpl. unfold slot in *. rewrite Hunset.
    unfold inverse_setitem. rewrite decide_True by exact Hlt. reflexivity. }
  assert (Hunset0 : state_pool_list st0 !! p = Some None) by exact Hunset.
  assert (Hlen0 : forall f, (p < length (get_list f st0))%nat).
  { intros f. replace (get_list f st0) with (get_list f (shared w))
      by (destruct f; reflexivity). apply Hlen. }
  destruct (pool_unset_ok cfg (np_expand_dims s) a' next_s r done p st0
              Hclr Hp Hunset0 Hlen0) as (st' & Hpool & Hw' & Hframe & _).
  exists st'. split; [|split; [|split]].
  - unfold iteration. rewrite (bind_ok _ _ _ _ _ Hsel).
    unfold store_sample, bind, in_env, in_pool, emit, with_weight. simpl.
    rewrite Hact. simpl. rewrite Hstep. simpl.
    fold st0. rewrite Hpool. simpl. unfold holds.
    rewrite <- app_assoc. reflexivity.
  - assert (Hno : (capacity cfg <? Z.of_nat (length (np_expand_dims s))) = false)
      by (apply Z.ltb_ge; simpl; lia).
    rewrite Hno in Hw'. exact Hw'.
  - destruct Hframe as (_ & _ & _ & Hinv). rewrite Hinv. reflexivity.
  - intros f j Hj. destruct Hframe as (Hseg & _).
    rewrite (Hseg f j Hj). destruct f; reflexivity.
Qed.
End Bootstrap.

(** ** Storing one sample per segment, then aggregating *)

Section RoundTrip.
Context {V : Type}.
Implicit Types st : PoolState V.

Lemma get_pool_written st (segs : field -> list (list V)) :
  (forall f, get_list f st = Some <$> segs f) ->
  (forall f, segs f <> []) ->
  get_pool st =
    (Ok (concat (segs F_state), concat (segs F_action),
         concat (segs F_next_state), concat (segs F_reward),
         concat (segs F_done)), st).
Proof.
  intros Hall Hne. unfold get_pool, bind, ret.
  pose proof (Hall F_state) as H1. pose proof (Hall F_action) as H2.
  pose proof (Hall F_next_state) as H3. pose proof (Hall F_reward) as H4.
  pose proof (Hall F_done) as H5. simpl in H1, H2, H3, H4, H5.
  cbv beta. rewrite H1, np_concatenate_written by apply Hne.
  cbv beta iota. rewrite H2, np_concatenate_written by apply Hne.
  cbv beta iota. rewrite H3, np_concatenate_written by apply Hne.
  cbv beta iota. rewrite H4, np_concatenate_written by apply Hne.
  cbv beta iota. rewrite H5, np_concatenate_written by apply Hne.
  reflexivity.
Qed.

Lemma frame_written_insert index st st1 rows f :
  frame index st st1 ->
  written st1 index rows ->
  get_list f st1 = <[index := Some (rows f)]> (get_list f st).
Proof.
  intros (Hseg & _ & Hlen & _) Hw.
  assert (Hlt : (index < length (get_list f st))%nat).
  { rewrite <- Hlen. eapply lookup_lt_Some. apply (Hw f). }
  apply list_eq. intros j.
  destruct (decide (j = index)) as [->|Hne].
  - rewrite list_lookup_insert_eq by exact Hlt. apply Hw.
  - rewrite list_lookup_insert_ne by auto. apply Hseg. exact Hne.
Qed.

Lemma concat_singletons {A B} (g : A -> B) (l : list A) :
  concat ((fun x => [g x]) <$> l) = g <$> l.
Proof.
  induction l as [|x l IH]; [reflexivity|].
  rewrite !fmap_cons. change (concat ([g x] :: ((fun x => [g x]) <$> l)))
    with (g x :: concat ((fun x => [g x]) <$> l)).
  rewrite IH. reflexivity.
Qed.

(** The lists after [pool_each]: the segments written so far, then the new
    ones, where unset entries were. *)
Lemma pool_each_fills cfg samples :
  clearing_freq cfg = None ->
  processes cfg <> 0%nat ->
  1 <= capacity cfg ->
  forall index st (pre : field -> list (list V)),
    (forall f, get_list f st
               = (Some <$> pre f) ++ replicate (length samples) None) ->
    (forall f, length (pre f) = index) ->
    exists st',
      pool_each cfg samples index st = (Ok tt, st') /\
      forall f, get_list f st'
                = Some <$> (pre f ++ ((fun smp => [sample_field f smp]) <$> samples)).
Proof.
  intros Hclr Hp Hcap.
  induction samples as [|[[[[s a] next_s] r] done] rest IH];
    intros index st pre Hst Hpre.
  - exists st. split; [reflexivity|].
    intros f. rewrite Hst. simpl. rewrite !app_nil_r. reflexivity.
  - assert (Hunset : state_pool_list st !! index = Some None).
    { pose proof (Hst F_state) as H1. simpl in H1. rewrite H1.
      rewrite lookup_app_r by (rewrite length_fmap, (Hpre F_state); lia).
      rewrite length_fmap, (Hpre F_state), Nat.sub_diag. reflexivity. }
    assert (Hlen : forall f, (index < length (get_list f st))%nat).
    { intros f. rewrite Hst, length_app, length_fmap, (Hpre f). simpl. lia. }
    destruct (pool_unset_ok cfg (np_expand_dims s) a next_s r done index st
                Hclr Hp Hunset Hlen) as (st1 & Hpool & Hw1 & Hframe & _).
    assert (Hno : (capacity cfg <? Z.of_nat (length (np_expand_dims s))) = false)
      by (apply Z.ltb_ge; simpl; lia).
    rewrite Hno in Hw1.
    assert (Hst1 : forall f,
               get_list f st1
               = (Some <$> (pre f ++ [[sample_field f (s, a, next_s, r, done)]]))
                 ++ replicate (length rest) None).
    { intros f.
      rewrite (frame_written_insert index st st1 _ f Hframe Hw1), Hst.
      rewrite insert_app_r_alt by (rewrite length_fmap, (Hpre f); lia).
      rewrite length_fmap, (Hpre f), Nat.sub_diag. simpl.
      rewrite fmap_app, <- app_assoc. simpl.
      destruct f; reflexivity. }
    destruct (IH (S index) st1
                (fun f => pre f ++ [[sample_field f (s, a, next_s, r, done)]])
                Hst1) as (st' & Hrun & Hfin).
    { intros f. rewrite length_app, (Hpre f). simpl. lia. }
    exists st'. split.
    + simpl. rewrite (bind_ok _ _ _ _ _ Hpool). exact Hrun.
    + intros f. rewrite Hfin, <- app_assoc. reflexivity.
Qed.

(** X17.  Store, then aggregate: on a pool of [n >= 1] unset segments, with
    no clearing and a capacity of at least one, storing one sample in each
    of the segments 0, ..., n-1 succeeds, and [get_pool] then returns, for
    every field, the rows of the samples in the order of the segments. *)
Theorem store_each_then_get_pool cfg (samples : list (V * V * V * V * V)) st :
  clearing_freq cfg = None ->
  processes cfg <> 0%nat ->
  1 <= capacity cfg ->
  samples <> [] ->
  (forall f, get_list f st = replicate (length samples) None) ->
  exists st' out,
    pool_each cfg samples 0 st = (Ok tt, st') /\
    get_pool st' = (Ok out, st') /\
    forall f, pool_field f out = sample_field f <$> samples.
Proof.
  intros Hclr Hp Hcap Hne Hst.
  destruct (pool_each_fills cfg samples Hclr Hp Hcap 0%nat st (fun _ => []))
    as (st' & Hrun & Hfin); [exact Hst | reflexivity |].
  simpl in Hfin.
  assert (Hsegs : forall f, (fun smp => [sample_field f smp]) <$> samples <> []).
  { intros f. destruct samples; [contradiction | discriminate]. }
  eexists st', _. split; [exact Hrun|]. split.
  - apply (get_pool_written st'
             (fun f => (fun smp => [sample_field f smp]) <$> samples) Hfin Hsegs).
  - intros f. destruct f; simpl; apply concat_singletons.
Qed.
End RoundTrip.

Section Weights.
Local Open Scope Q_scope.


End Weights.

(** ** Instances of the further properties *)

(** X1 on segment 0 after its first sample. *)
Lemma pool_raises_on_written_segment_witness :
  written (one_sample cfg_plain) 0 (sample_rows [10] 20 30 1 0) /\
  exists st',
    pool cfg_plain [11] 21 31 1 0 0%nat (one_sample cfg_plain)
      = (Raise AttributeError, st') /\
    written st' 0
      (fun f => match f with
                | F_done => sample_rows [10] 20 30 1 0 F_done
                | _ => sample_rows [10] 20 30 1 0 f ++ sample_rows [11] 21 31 1 0 f
                end) /\
    frame 0 (one_sample cfg_plain) st' /\
    store_counter st' = store_counter (one_sample cfg_plain).
Proof.
  assert (H : written (one_sample cfg_plain) 0 (sample_rows [10] 20 30 1 0))
    by (intros f; destruct f; reflexivity).
  split; [exact H|].
  apply (pool_raises_on_written_segment cfg_plain [11] 21 31 1 0 0%nat
           (one_sample cfg_plain) (sample_rows [10] 20 30 1 0) H).
Defined.

(** X2 on the first sample of segment 0. *)
Lemma pool_stores_first_sample_witness :
  clearing_freq cfg_plain = None /\
  processes cfg_plain <> 0%nat /\
  state_pool_list (unset_pool cfg_plain) !! 0%nat = Some None /\
  (forall f, (0 < length (get_list f (unset_pool cfg_plain)))%nat) /\
  exists st',
    pool cfg_plain [10] 20 30 1 0 0%nat (unset_pool cfg_plain) = (Ok tt, st') /\
    written st' 0
      (fun f => if capacity cfg_plain <? Z.of_nat (length [10])
                then cut (Some (window cfg_plain)) (sample_rows [10] 20 30 1 0 f)
                else sample_rows [10] 20 30 1 0 f) /\
    frame 0 (unset_pool cfg_plain) st' /\
    store_counter st' = store_counter (unset_pool cfg_plain).
Proof.
  assert (H1 : clearing_freq cfg_plain = None) by reflexivity.
  assert (H2 : processes cfg_plain <> 0%nat) by (simpl; lia).
  assert (H3 : state_pool_list (unset_pool cfg_plain) !! 0%nat = Some None)
    by reflexivity.
  assert (H4 : forall f, (0 < length (get_list f (unset_pool cfg_plain)))%nat)
    by (intros f; destruct f; simpl; lia).
  repeat (split; [assumption|]).
  apply (pool_stores_first_sample cfg_plain [10] 20 30 1 0 0%nat
           (unset_pool cfg_plain) H1 H2 H3 H4).
Defined.

(** X3 on the first sample of segment 0. *)
Lemma pool_ok_aligned_witness :
  length [10] = 1%nat /\
  pool cfg_plain [10] 20 30 1 0 0%nat (unset_pool cfg_plain)
    = (Ok tt, one_sample cfg_plain) /\
  aligned (one_sample cfg_plain) 0.
Proof.
  assert (H1 : length [10] = 1%nat) by reflexivity.
  assert (H2 : pool cfg_plain [10] 20 30 1 0 0%nat (unset_pool cfg_plain)
               = (Ok tt, one_sample cfg_plain)) by reflexivity.
  repeat (split; [assumption|]).
  apply (pool_ok_aligned cfg_plain [10] 20 30 1 0 0%nat (unset_pool cfg_plain)
           (one_sample cfg_plain) H1 H2).
Defined.

(** X4 on the first sample of segment 0. *)
Lemma pool_returns_only_on_first_write_witness :
  pool cfg_plain [10] 20 30 1 0 0%nat (unset_pool cfg_plain)
    = (Ok tt, one_sample cfg_plain) /\
  state_pool_list (unset_pool cfg_plain) !! 0%nat = Some None /\
  exists rows,
    written (one_sample cfg_plain) 0 rows /\
    forall f, exists k,
      (k <= length (sample_rows [10] 20 30 1 0 f)%Z)%nat /\
      rows f = drop k (sample_rows [10] 20 30 1 0 f).
Proof.
  assert (H : pool cfg_plain [10] 20 30 1 0 0%nat (unset_pool cfg_plain)
              = (Ok tt, one_sample cfg_plain)) by reflexivity.
  split; [exact H|].
  apply (pool_returns_only_on_first_write cfg_plain [10] 20 30 1 0 0%nat
           (unset_pool cfg_plain) (one_sample cfg_plain) H).
Defined.

Lemma written_three_rows : written three_rows 0 rows_three.
Proof. intros f; destruct f; reflexivity. Defined.

(** X5 on [three_rows]: the counter goes from 1 to 2 and one row goes. *)
Lemma pool_clearing_spec_witness :
  clearing_freq cfg_clearing = Some 2 /\
  2 <> 0 /\
  window_size_ cfg_clearing = Some 1 /\
  0 <= 1 /\
  written three_rows 0 rows_three /\
  counter_at three_rows 0 = Some 1 /\
  exists st',
    pool_clearing cfg_clearing 0 three_rows = (Ok tt, st') /\
    counter_at st' 0 = Some (1 + 1) /\
    frame 0 three_rows st' /\
    written st' 0
      (if (1 + 1) mod 2 =? 0
       then fun f => drop (Nat.min (Z.to_nat 1) (length (rows_three f)))
                       (rows_three f)
       else rows_three).
Proof.
  assert (H1 : clearing_freq cfg_clearing = Some 2) by reflexivity.
  assert (H2 : 2 <> 0) by lia.
  assert (H3 : window_size_ cfg_clearing = Some 1) by reflexivity.
  assert (H4 : 0 <= 1) by lia.
  assert (H6 : counter_at three_rows 0 = Some 1) by reflexivity.
  repeat (split; [first [assumption | exact written_three_rows]|]).
  apply (pool_clearing_spec cfg_clearing 0%nat three_rows rows_three 2 1 1
           H1 H2 H3 H4 written_three_rows H6).
Defined.

(** X6 on [three_rows]: the counter reaches 2 and no row goes. *)
Lemma clearing_without_window_drops_nothing_witness :
  clearing_freq cfg_counting = Some 2 /\
  2 <> 0 /\
  window_size_ cfg_counting = None /\
  written three_rows 0 rows_three /\
  counter_at three_rows 0 = Some 1 /\
  exists st',
    pool_clearing cfg_counting 0 three_rows = (Ok tt, st') /\
    counter_at st' 0 = Some (1 + 1) /\
    frame 0 three_rows st' /\
    written st' 0 rows_three.
Proof.
  assert (H1 : clearing_freq cfg_counting = Some 2) by reflexivity.
  assert (H2 : 2 <> 0) by lia.
  assert (H3 : window_size_ cfg_counting = None) by reflexivity.
  assert (H5 : counter_at three_rows 0 = Some 1) by reflexivity.
  repeat (split; [first [assumption | exact written_three_rows]|]).
  apply (clearing_without_window_drops_nothing cfg_counting 0%nat three_rows
           rows_three 2 1 H1 H2 H3 written_three_rows H5).
Defined.

(** X7 on [three_rows]. *)
Lemma clearing_freq_zero_raises_after_counting_witness :
  clearing_freq cfg_zero = Some 0 /\
  counter_at three_rows 0 = Some 1 /\
  exists st',
    pool_clearing cfg_zero 0 three_rows = (Raise ZeroDivisionError, st') /\
    counter_at st' 0 = Some (1 + 1) /\
    (forall f, get_list f st' = get_list f three_rows) /\
    inverse_len st' = inverse_len three_rows.
Proof.
  assert (H1 : clearing_freq cfg_zero = Some 0) by reflexivity.
  assert (H2 : counter_at three_rows 0 = Some 1) by reflexivity.
  repeat (split; [assumption|]).
  apply (clearing_freq_zero_raises_after_counting cfg_zero 0%nat three_rows 1
           H1 H2).
Defined.

(** X8 on [three_rows] with capacity 2 and window 1: the segment is one
    entry over the capacity, and the check drops its oldest row. *)
Lemma pool_capacity_bound_witness :
  written three_rows 0 rows_three /\
  processes cfg_tight <> 0%nat /\
  1 <= window cfg_tight /\
  0 <= capacity cfg_tight + window cfg_tight - 1 /\
  seg_len three_rows 0 <= capacity cfg_tight + window cfg_tight /\
  seg_len (pool_capacity cfg_tight 0 three_rows).2 0
    <= capacity cfg_tight + window cfg_tight - 1.
Proof.
  assert (H2 : processes cfg_tight <> 0%nat) by (simpl; lia).
  assert (H3 : 1 <= window cfg_tight) by (vm_compute; discriminate).
  assert (H4 : 0 <= capacity cfg_tight + window cfg_tight - 1)
    by (vm_compute; discriminate).
  assert (H5 : seg_len three_rows 0 <= capacity cfg_tight + window cfg_tight)
    by (vm_compute; discriminate).
  repeat (split; [first [assumption | exact written_three_rows]|]).
  apply (pool_capacity_bound cfg_tight 0%nat three_rows rows_three
           written_three_rows H2 H3 H4 H5).
Defined.

Example pool_capacity_bound_run :
  capacity cfg_tight < seg_len three_rows 0 /\
  state_pool_list (pool_capacity cfg_tight 0 three_rows).2 = [Some [11; 12]] /\
  seg_len (pool_capacity cfg_tight 0 three_rows).2 0 = 2 /\
  capacity cfg_tight + window cfg_tight - 1 = 2.
Proof. repeat split. Qed.

(** X9 on [three_rows] with capacity 2 and [window_size = -1]: the last row
    of every field stays. *)
Lemma negative_window_keeps_tail_witness :
  written three_rows 0 rows_three /\
  processes cfg_negative <> 0%nat /\
  window_size cfg_negative = Some (-1) /\
  -1 < 0 /\
  capacity cfg_negative < seg_len three_rows 0 /\
  exists st',
    pool_capacity cfg_negative 0 three_rows = (Ok tt, st') /\
    written st' 0
      (fun f => drop (length (rows_three f) - Z.to_nat (- -1)) (rows_three f)) /\
    (forall f, length (drop (length (rows_three f) - Z.to_nat (- -1)) (rows_three f))
               = Nat.min (Z.to_nat (- -1)) (length (rows_three f))).
Proof.
  assert (H2 : processes cfg_negative <> 0%nat) by (simpl; lia).
  assert (H3 : window_size cfg_negative = Some (-1)) by reflexivity.
  assert (H4 : -1 < 0) by lia.
  assert (H5 : capacity cfg_negative < seg_len three_rows 0) by reflexivity.
  repeat (split; [first [assumption | exact written_three_rows]|]).
  apply (negative_window_keeps_tail cfg_negative 0%nat three_rows rows_three (-1)
           written_three_rows H2 H3 H4 H5).
Defined.

Example negative_window_run :
  state_pool_list (pool_capacity cfg_negative 0 three_rows).2 = [Some [12]].
Proof. reflexivity. Qed.

(** X13 on three turns of worker 0 over a pool as constructed. *)
Lemma worker_on_new_pool_stores_nothing_witness :
  shared (world0 (init cfg_plain)) = init cfg_plain /\
  (store_in_parallel env_reset0 env_step0 truth0 select_action0 random_choice0
     cfg_plain 3 0 (world0 (init cfg_plain))).1 <> Returned /\
  shared (store_in_parallel env_reset0 env_step0 truth0 select_action0
            random_choice0 cfg_plain 3 0 (world0 (init cfg_plain))).2
    = init cfg_plain.
Proof.
  assert (H : shared (world0 (init cfg_plain)) = init cfg_plain) by reflexivity.
  split; [exact H|].
  apply (worker_on_new_pool_stores_nothing env_reset0 env_step0 truth0
           select_action0 random_choice0 cfg_plain 3 0%nat
           (world0 (init cfg_plain)) H).
Defined.

(** X14 on a second sample for segment 0. *)
Lemma lock_left_held_when_pool_raises_witness :
  select_action0 (np_expand_dims 11) (outside (world0 (one_sample cfg_plain)))
    = (Ok 0, tt) /\
  env_step0 0 0 tt = (Ok (0, 1, 1, 1), tt) /\
  pool cfg_plain (np_expand_dims 11) 0 1 1 1 0%nat
    (shared (world0 (one_sample cfg_plain)))
    = (Raise AttributeError,
       (pool cfg_plain [11] 0 1 1 1 0%nat (one_sample cfg_plain)).2) /\
  store_sample env_step0 truth0 select_action0 cfg_plain 0 11 0
    (world0 (one_sample cfg_plain))
    = (Raise AttributeError,
       mkWorld (pool cfg_plain [11] 0 1 1 1 0%nat (one_sample cfg_plain)).2 tt
         (trace (world0 (one_sample cfg_plain)) ++ [Acquire 0])).
Proof.
  assert (H1 : select_action0 (np_expand_dims 11)
                 (outside (world0 (one_sample cfg_plain))) = (Ok 0, tt))
    by reflexivity.
  assert (H2 : env_step0 0 0 tt = (Ok (0, 1, 1, 1), tt)) by reflexivity.
  assert (H3 : pool cfg_plain (np_expand_dims 11) 0 1 1 1 0%nat
                 (shared (world0 (one_sample cfg_plain)))
               = (Raise AttributeError,
                  (pool cfg_plain [11] 0 1 1 1 0%nat (one_sample cfg_plain)).2))
    by reflexivity.
  repeat (split; [assumption|]).
  apply (lock_left_held_when_pool_raises env_step0 truth0 select_action0
           cfg_plain 0%nat 11 0%nat (world0 (one_sample cfg_plain))
           0 tt 0 1 1 1 tt AttributeError _ H1 H2 H3).
Defined.

(** X16 on worker 0 and two unset segments. *)
Lemma first_turn_bootstraps_witness :
  random cfg_random = true /\
  clearing_freq cfg_random = None /\
  processes cfg_random <> 0%nat /\
  1 <= capacity cfg_random /\
  state_pool_list (shared (world0 (unset_pool cfg_random))) !! 0%nat = Some None /\
  (forall f, (0 < length (get_list f (shared (world0 (unset_pool cfg_random)))))%nat) /\
  (0 < length (inverse_len (shared (world0 (unset_pool cfg_random)))))%nat /\
  select_action0 (np_expand_dims 5) (outside (world0 (unset_pool cfg_random)))
    = (Ok 0, tt) /\
  env_step0 0 0 tt = (Ok (0, 1, 1, 1), tt) /\
  exists st',
    iteration env_step0 truth0 select_action0 random_choice0 cfg_random 0 5
      (world0 (unset_pool cfg_random))
      = (Ok (1, truth0 1),
         mkWorld st' tt (trace (world0 (unset_pool cfg_random)) ++ holds 0)) /\
    written st' 0 (sample_rows (np_expand_dims 5) 0 1 1 1) /\
    inverse_len st'
      = <[0%nat := 1%Q]> (inverse_len (shared (world0 (unset_pool cfg_random)))) /\
    (forall f j, j <> 0%nat ->
       get_list f st' !! j
       = get_list f (shared (world0 (unset_pool cfg_random))) !! j).
Proof.
  assert (H1 : random cfg_random = true) by reflexivity.
  assert (H2 : clearing_freq cfg_random = None) by reflexivity.
  assert (H3 : processes cfg_random <> 0%nat) by (simpl; lia).
  assert (H4 : 1 <= capacity cfg_random) by (vm_compute; discriminate).
  assert (H5 : state_pool_list (shared (world0 (unset_pool cfg_random))) !! 0%nat
               = Some None) by reflexivity.
  assert (H6 : forall f,
             (0 < length (get_list f (shared (world0 (unset_pool cfg_random)))))%nat)
    by (intros f; destruct f; simpl; lia).
  assert (H7 : (0 < length (inverse_len
                              (shared (world0 (unset_pool cfg_random)))))%nat)
    by (simpl; lia).
  assert (H8 : select_action0 (np_expand_dims 5)
                 (outside (world0 (unset_pool cfg_random))) = (Ok 0, tt))
    by reflexivity.
  assert (H9 : env_step0 0 0 tt = (Ok (0, 1, 1, 1), tt)) by reflexivity.
  repeat (split; [assumption|]).
  apply (first_turn_bootstraps env_step0 truth0 select_action0 random_choice0
           cfg_random 0%nat 5 (world0 (unset_pool cfg_random)) 0 tt 0 1 1 1 tt
           H1 H2 H3 H4 H5 H6 H7 H8 H9).
Defined.

(** X17 on two segments. *)
Lemma store_each_then_get_pool_witness :
  clearing_freq cfg_plain = None /\
  processes cfg_plain <> 0%nat /\
  1 <= capacity cfg_plain /\
  two_samples <> [] /\
  (forall f, get_list f (unset_pool cfg_plain)
             = replicate (length two_samples) None) /\
  exists st' out,
    pool_each cfg_plain two_samples 0 (unset_pool cfg_plain) = (Ok tt, st') /\
    get_pool st' = (Ok out, st') /\
    forall f, pool_field f out = sample_field f <$> two_samples.
Proof.
  assert (H1 : clearing_freq cfg_plain = None) by reflexivity.
  assert (H2 : processes cfg_plain <> 0%nat) by (simpl; lia).
  assert (H3 : 1 <= capacity cfg_plain) by (vm_compute; discriminate).
  assert (H4 : two_samples <> []) by discriminate.
  assert (H5 : forall f, get_list f (unset_pool cfg_plain)
                         = replicate (length two_samples) None)
    by (intros f; destruct f; reflexivity).
  repeat (split; [assumption|]).
  apply (store_each_then_get_pool cfg_plain two_samples (unset_pool cfg_plain)
           H1 H2 H3 H4 H5).
Defined.

Example store_each_then_get_pool_run :
  (get_pool (pool_each cfg_plain two_samples 0 (unset_pool cfg_plain)).2).1
    = Ok ([10; 11], [20; 21], [30; 31], [1; 1], [0; 1]).
Proof. reflexivity. Qed.

